(** * The SSH remote client of bit: command framing, exit-code classification
      and response decoding.

    The development follows [scope/network/ssh/ssh.js]: the helpers
    [absolutePath], [clean] and [errorHandler], and the class [SSH] with
    [buildCmd], [exec], [push], [describeScope], [list], [search], [show],
    [fetch], [close], [composeConnectionUrl] and [connect].

    JavaScript promises are modelled by their settled state, exceptions by an
    explicit result type, the [sequest] connection by a state-transition
    interface, and the collaborators imported from other modules
    ([toBase64], [fromBase64], [unpack], [ComponentObjects],
    [ConsumerComponent], [BitId], [keyGetter], [JSON.parse]) by the fields of
    a type class, which also holds the numbers of the language and the text
    a template literal renders for them. *)

From Stdlib Require Import ZArith String Ascii.
From stdpp Require Import base tactics option list.

Local Open Scope list_scope.
Local Open Scope string_scope.

(** ** JavaScript values and strings *)

Module Js.

(** The values that reach the client through untyped fields
    ([err.code], [err.id], [o.code]). *)
Inductive value : Type :=
| VUndefined
| VNull
| VBool (b : bool)
| VNum (n : Z)
| VStr (s : string).

(** [ToBoolean]. *)
Definition truthy (v : value) : bool :=
  match v with
  | VUndefined | VNull => false
  | VBool b => b
  | VNum n => negb (n =? 0)%Z
  | VStr s => negb (s =? "")%string
  end.

(** [a === b]. *)
Definition strict_eq (a b : value) : bool :=
  match a, b with
  | VUndefined, VUndefined => true
  | VNull, VNull => true
  | VBool x, VBool y => Bool.eqb x y
  | VNum x, VNum y => (x =? y)%Z
  | VStr x, VStr y => (x =? y)%string
  | _, _ => false
  end.

(** [a || b]. *)
Definition or (a b : value) : value := if truthy a then a else b.

(** The truth value of a string in a condition ([str ? a : b]). *)
Definition nonempty (s : string) : bool := negb (s =? "")%string.

(** [s || d] on strings. *)
Definition str_or (s d : string) : string := if nonempty s then s else d.

(** [b.toString()] for a boolean. *)
Definition bool_to_string (b : bool) : string := if b then "true" else "false".

(** The line feed character. *)
Definition LF : ascii := ascii_of_nat 10.

Fixpoint drop (n : nat) (s : string) : string :=
  match n, s with
  | O, _ => s
  | S _, EmptyString => EmptyString
  | S k, String _ r => drop k r
  end.

(** [s.startsWith(p)]. *)
Definition startsWith (s p : string) : bool := String.prefix p s.

(** [s.replace(pat, rep)] for a string pattern and a replacement without
    [$] patterns: only the first occurrence of [pat] is replaced. *)
Fixpoint replace (pat rep s : string) : string :=
  if String.prefix pat s then rep ++ drop (String.length pat) s
  else match s with
       | EmptyString => EmptyString
       | String c r => String c (replace pat rep r)
       end.

(** [s.includes(p)]. *)
Fixpoint includes (s p : string) : bool :=
  String.prefix p s ||
  match s with
  | EmptyString => false
  | String _ r => includes r p
  end.

(** [l.join(sep)]. *)
Fixpoint join (sep : string) (l : list string) : string :=
  match l with
  | [] => ""
  | [x] => x
  | x :: r => x ++ sep ++ join sep r
  end.

(** [s] has an occurrence of the character [c]. *)
Fixpoint has_char (c : ascii) (s : string) : bool :=
  match s with
  | EmptyString => false
  | String d r => Ascii.eqb d c || has_char c r
  end.

(** [s] without any occurrence of the character [c]. *)
Fixpoint without_char (c : ascii) (s : string) : string :=
  match s with
  | EmptyString => EmptyString
  | String d r => if Ascii.eqb d c then without_char c r
                  else String d (without_char c r)
  end.

(** Number of occurrences of the character [c] in [s]. *)
Fixpoint count_char (c : ascii) (s : string) : nat :=
  match s with
  | EmptyString => 0
  | String d r => (if Ascii.eqb d c then 1 else 0) + count_char c r
  end.

End Js.

(** ** Errors, results and promises *)

(** The exceptions the client constructs itself, the [TypeError] of the
    runtime (calling or dereferencing [undefined]), and exceptions raised by
    collaborators, identified by a tag. *)
Inductive error : Type :=
| UnexpectedNetworkError
| ComponentNotFound (id : Js.value)
| PermissionDenied
| RemoteScopeNotFound
| NetworkError (remoteErr : string)
| TypeError
| Foreign (tag : string).

(** A synchronous call either returns or throws. *)
Inductive result (A : Type) : Type :=
| Ok (a : A)
| Throw (e : error).
Arguments Ok {A} a.
Arguments Throw {A} e.

(** A promise, by the state it settles in. *)
Inductive promise (A : Type) : Type :=
| Resolved (a : A)
| Rejected (e : error).
Arguments Resolved {A} a.
Arguments Rejected {A} e.

(** [p.then(f)]: a throw inside [f] rejects the derived promise. *)
Definition then_ {A B : Type} (p : promise A) (f : A -> result B) : promise B :=
  match p with
  | Resolved a => match f a with
                  | Ok b => Resolved b
                  | Throw e => Rejected e
                  end
  | Rejected e => Rejected e
  end.

(** [p.catch(h)]. *)
Definition catch_ {A : Type} (p : promise A) (h : error -> result A) : promise A :=
  match p with
  | Resolved a => Resolved a
  | Rejected e => match h e with
                  | Ok a => Resolved a
                  | Throw e' => Rejected e'
                  end
  end.

(** [try { body } catch (err) { handler }]. *)
Definition try_catch {A : Type} (body : result A) (handler : error -> result A) : result A :=
  match body with
  | Ok a => Ok a
  | Throw e => handler e
  end.

Definition bind {A B : Type} (r : result A) (f : A -> result B) : result B :=
  match r with
  | Ok a => f a
  | Throw e => Throw e
  end.

Notation "'let!' x ':=' r 'in' k" := (bind r (fun x => k))
  (at level 10, x name, r at level 100, k at level 200).

(** [l.map(f)] where [f] may throw: the calls happen left to right and the
    first throw aborts the map. *)
Fixpoint map_result {A B : Type} (f : A -> result B) (l : list A) : result (list B) :=
  match l with
  | [] => Ok []
  | x :: r => let! y := f x in let! ys := map_result f r in Ok (y :: ys)
  end.

(** ** The helpers of the module *)

(** [absolutePath]. *)
Definition absolutePath (path : string) : string :=
  if negb (Js.startsWith path "/") then "~/" ++ path else path.

(** [clean]. *)
Definition clean (str : string) : string :=
  Js.replace (String Js.LF EmptyString) "" str.

(** The error object handed to the completion callback. *)
Record err_obj : Type := { err_code : Js.value; err_id : Js.value }.

(** The third argument of the completion callback. *)
Record exit_obj : Type := { exit_code : Js.value }.

(** [errorHandler]: a [switch] on [err.code], whose cases are compared with
    [===] in source order and whose [default] is taken when none matches. *)
Definition errorHandler (err : err_obj) (optionalId : Js.value) : error :=
  if Js.strict_eq (err_code err) (Js.VNum 127) then
    ComponentNotFound (Js.or (err_id err) optionalId)
  else if Js.strict_eq (err_code err) (Js.VNum 128) then PermissionDenied
  else if Js.strict_eq (err_code err) (Js.VNum 129) then RemoteScopeNotFound
  else if Js.strict_eq (err_code err) (Js.VNum 130) then PermissionDenied
  else UnexpectedNetworkError.

(** ** Collaborators *)

(** What [ConsumerComponent.fromString] is applied to: an item of the
    unpacked payload in [list], the whole unpacked array in [show]. *)
Inductive raw_arg : Type :=
| RawString (s : string)
| RawArray (items : list string).

(** How one call of the connection ends: the completion callback is invoked
    with [(err, res, o)], or the call itself throws. A promise settles once,
    so only the first invocation of the callback counts; a connection that
    never invokes it leaves the promise pending and is not represented. *)
Inductive reply : Type :=
| Callback (err : option err_obj) (res : string) (o : option exit_obj)
| CallThrows (e : error).

(** The modules imported by [ssh.js]. A deserializer returns a value that
    may be nil ([None]) or throws; the connection returned by
    [sequest.connect] is an object with its own state, called as a function
    and ended with [end()]. [unpack] returns an array of strings. [Number]
    is the type of JavaScript numbers and [Number_toString] the text that a
    template literal renders for one. *)
Class Collaborators : Type := {
  Number : Type;
  Number_toString : Number -> string;
  toBase64 : string -> string;
  fromBase64 : string -> result string;
  unpack : string -> list string;
  JSON : Type;
  JSON_parse : string -> result JSON;
  ComponentObjects : Type;
  ComponentObjects_toString : ComponentObjects -> string;
  ComponentObjects_fromString : string -> result (option ComponentObjects);
  ConsumerComponent : Type;
  ConsumerComponent_fromString : raw_arg -> result (option ConsumerComponent);
  BitId : Type;
  BitId_toString : BitId -> string;
  PrivateKey : Type;
  keyGetter : option string -> result PrivateKey;
  Sequest : Type;
  sequest_connect : string -> PrivateKey -> result Sequest;
  sequest_call : Sequest -> string -> Sequest * reply;
  sequest_end : Sequest -> result Sequest
}.

(** [R.isNil] and [R.reject(R.isNil)]. *)
Definition isNil {A : Type} (x : option A) : bool :=
  match x with
  | None => true
  | Some _ => false
  end.

Definition rejectNils {A : Type} (l : list (option A)) : list (option A) :=
  List.filter (fun x => negb (isNil x)) l.

(** ** The class SSH *)

Section Client.
Context `{Collaborators}.

Record SSHProps : Type := {
  props_path : string;
  props_username : string;
  props_port : Number;
  props_host : string
}.

Record SSH : Type := {
  connection : option Sequest;
  path : string;
  username : string;
  port : Number;
  host : string
}.

(** [constructor]: no connection yet. *)
Definition new_SSH (props : SSHProps) : SSH :=
  {| connection := None;
     path := props_path props;
     username := props_username props;
     port := props_port props;
     host := Js.str_or (props_host props) "" |}.

Definition set_connection (this : SSH) (c : Sequest) : SSH :=
  {| connection := Some c;
     path := path this;
     username := username this;
     port := port this;
     host := host this |}.

(** An asynchronous method call: the client after the call, the command
    lines handed to the connection, and the state the returned promise
    settles in. *)
Record run (A : Type) : Type := {
  client : SSH;
  sent : list string;
  settled : promise A
}.
Arguments client {A} _.
Arguments sent {A} _.
Arguments settled {A} _.

Definition run_then {A B : Type} (r : run A) (f : A -> result B) : run B :=
  {| client := client r; sent := sent r; settled := then_ (settled r) f |}.

Definition run_catch {A : Type} (r : run A) (h : error -> result A) : run A :=
  {| client := client r; sent := sent r; settled := catch_ (settled r) h |}.

(** [buildCmd]. *)
Definition buildCmd (commandName : string) (args : list string) : string :=
  let serialize := Js.join " " (List.map (fun val => toBase64 val) args) in
  "bit " ++ commandName ++ " " ++ serialize.

(** The command line [exec] builds for an operation: [this.path || '']
    made absolute, then the arguments. *)
Definition command_line (this : SSH) (commandName : string) (args : list string) : string :=
  buildCmd commandName (absolutePath (Js.str_or (path this) "") :: args).

(** The completion callback of [exec]. *)
Definition exec_callback (err : option err_obj) (res : string) (o : option exit_obj)
  : promise string :=
  match o with
  | None => Rejected UnexpectedNetworkError
  | Some o =>
      match err with
      | Some err =>
          if Js.truthy (exit_code o) && negb (Js.strict_eq (exit_code o) (Js.VNum 0))
          then Rejected (errorHandler err (Js.VStr res))
          else Resolved (clean res)
      | None => Resolved (clean res)
      end
  end.

(** [exec]: calling an undefined [this.connection] throws a [TypeError]
    inside the promise executor, which rejects the promise. *)
Definition exec (this : SSH) (commandName : string) (args : list string) : run string :=
  let cmd := command_line this commandName args in
  match connection this with
  | None => {| client := this; sent := []; settled := Rejected TypeError |}
  | Some c =>
      let (c', r) := sequest_call c cmd in
      {| client := set_connection this c';
         sent := [cmd];
         settled := match r with
                    | Callback err res o => exec_callback err res o
                    | CallThrows e => Rejected e
                    end |}
  end.

(** [push]. *)
Definition push (this : SSH) (componentObjects : ComponentObjects)
  : run (option ComponentObjects) :=
  run_then (exec this "_put" [ComponentObjects_toString componentObjects])
    (fun str =>
       try_catch
         (let! decoded := fromBase64 str in ComponentObjects_fromString decoded)
         (fun _ => Throw (NetworkError str))).

(** [describeScope]. *)
Definition describeScope (this : SSH) : run JSON :=
  run_catch
    (run_then (exec this "_scope" [])
       (fun data => let! decoded := fromBase64 data in JSON_parse decoded))
    (fun _ => Throw RemoteScopeNotFound).

(** [list]. *)
Definition list_ (this : SSH) : run (list (option ConsumerComponent)) :=
  run_then (exec this "_list" [])
    (fun str =>
       let components := unpack str in
       let! mapped :=
         map_result
           (fun c => if Js.nonempty c
                     then ConsumerComponent_fromString (RawString c)
                     else Ok None)
           components in
       Ok (rejectNils mapped)).

(** [search]. *)
Definition search (this : SSH) (query : string) (reindex : bool) : run JSON :=
  run_then (exec this "_search" [query; Js.bool_to_string reindex]) JSON_parse.

(** [show]. *)
Definition show (this : SSH) (id : BitId) : run (option ConsumerComponent) :=
  run_then (exec this "_show" [BitId_toString id])
    (fun str =>
       let component := unpack str in
       if Js.nonempty str
       then ConsumerComponent_fromString (RawArray component)
       else Ok None).

(** [fetch]. *)
Definition fetch (this : SSH) (ids : list BitId) (noDeps : bool)
  : run (list (option ComponentObjects)) :=
  let options := if noDeps then "-n" else "" in
  let ids := List.map (fun bitId => BitId_toString bitId) ids in
  run_then (exec this ("_fetch " ++ options) ids)
    (fun str =>
       let components := unpack str in
       map_result (fun raw => ComponentObjects_fromString raw) components).

(** [close]: dereferencing an undefined [this.connection] throws. *)
Definition close (this : SSH) : result SSH :=
  match connection this with
  | None => Throw TypeError
  | Some c => let! c' := sequest_end c in Ok (set_connection this c')
  end.

(** [composeConnectionUrl]. *)
Definition composeConnectionUrl (this : SSH) : string :=
  username this ++ "@" ++ host this ++ ":" ++ Number_toString (port this).

(** [connect]: the [sshUrl] argument is not used. *)
Definition connect {U : Type} (this : SSH) (sshUrl : U) (key : option string) : run SSH :=
  match (let! privateKey := keyGetter key in
         sequest_connect (composeConnectionUrl this) privateKey) with
  | Throw e => {| client := this; sent := []; settled := Rejected e |}
  | Ok c =>
      let this' := set_connection this c in
      {| client := this'; sent := []; settled := Resolved this' |}
  end.

End Client.

Arguments client {_ A} _.
Arguments sent {_ A} _.
Arguments settled {_ A} _.

(** Two clients address the same endpoint. *)
Definition same_endpoint `{Collaborators} (a b : SSH) : Prop :=
  path a = path b /\ username a = username b /\ port a = port b /\ host a = host b.

(** A client holds a connection. *)
Definition is_connected `{Collaborators} (this : SSH) : Prop :=
  exists c, connection this = Some c.

(** The text after a token of a command line: nothing, or a space and
    more. *)
Definition token_end (r : string) : Prop := r = "" \/ exists t, r = String " " t.

(** What an operation keeps of the client: the endpoint, and a connection
    once there is one. *)
Definition kept `{Collaborators} (this after : SSH) : Prop :=
  same_endpoint this after /\ (is_connected this -> is_connected after).

(** ** A concrete set of collaborators *)

Module Base64.

(** Modelled from the spec: [toBase64] and [fromBase64] of [utils], which
    [ssh.js] imports and whose source is not part of the files at hand;
    the specification calls them the base64 encoding and decoding of a
    byte string. This is the standard alphabet with [=] padding. *)
Definition alphabet : string :=
  "ABCDEFGHIJKLMNOPQRSTUVWXYZabcdefghijklmnopqrstuvwxyz0123456789+/".

Definition pad : ascii := "="%char.

Definition digit (n : N) : ascii :=
  match String.get (N.to_nat n) alphabet with
  | Some c => c
  | None => pad
  end.

(** Three bytes make four digits; a last group of one or two bytes is
    padded. *)
Fixpoint encode_bytes (l : list N) : string :=
  match l with
  | [] => ""
  | [a] =>
      let n := (a * 16)%N in
      String (digit (n / 64)) (String (digit (n mod 64))
        (String pad (String pad "")))
  | [a; b] =>
      let n := ((a * 256 + b) * 4)%N in
      String (digit (n / 4096)) (String (digit ((n / 64) mod 64))
        (String (digit (n mod 64)) (String pad "")))
  | a :: b :: c :: r =>
      let n := (a * 65536 + b * 256 + c)%N in
      String (digit (n / 262144)) (String (digit ((n / 4096) mod 64))
        (String (digit ((n / 64) mod 64)) (String (digit (n mod 64))
          (encode_bytes r))))
  end.

Definition encode (s : string) : string :=
  encode_bytes (List.map N_of_ascii (list_ascii_of_string s)).

Fixpoint index_of (c : ascii) (s : string) (i : N) : option N :=
  match s with
  | EmptyString => None
  | String d r => if Ascii.eqb d c then Some i else index_of c r (N.succ i)
  end.

(** The digits of a text up to the first padding character; characters
    outside the alphabet are skipped. *)
Fixpoint sextets (s : string) : list N :=
  match s with
  | EmptyString => []
  | String c r =>
      if Ascii.eqb c pad then []
      else match index_of c alphabet 0 with
           | Some v => v :: sextets r
           | None => sextets r
           end
  end.

Fixpoint decode_sextets (l : list N) : list N :=
  match l with
  | a :: b :: c :: d :: r =>
      let n := (a * 262144 + b * 4096 + c * 64 + d)%N in
      (n / 65536)%N :: ((n / 256) mod 256)%N :: (n mod 256)%N :: decode_sextets r
  | [a; b; c] =>
      let n := (a * 4096 + b * 64 + c)%N in
      [(n / 1024)%N; ((n / 4) mod 256)%N]
  | [a; b] =>
      let n := (a * 64 + b)%N in
      [(n / 16)%N]
  | _ => []
  end.

Definition decode (s : string) : string :=
  string_of_list_ascii (List.map ascii_of_N (decode_sextets (sextets s))).

End Base64.

Module Demo.

(** [s.split(c)] for a one-character separator. *)
Fixpoint split (c : ascii) (s : string) : list string :=
  match s with
  | EmptyString => [""]
  | String d r =>
      if Ascii.eqb d c then "" :: split c r
      else match split c r with
           | x :: xs => String d x :: xs
           | [] => [String d ""]
           end
  end.

(** The port numbers of the examples, 22 and 2222. *)
Inductive port_number : Type := Port22 | Port2222.

Definition port_text (n : port_number) : string :=
  match n with
  | Port22 => "22"
  | Port2222 => "2222"
  end.

(** Collaborators over strings: objects serialize to themselves, the
    text ["null"] deserializes to nil and the text ["?"] does not
    deserialize; [unpack] splits at commas; the connection answers every
    command with [answer] and can always be ended; a key is found when a
    key path is given. *)
Definition collaborators (answer : reply) : Collaborators := {|
  Number := port_number;
  Number_toString := port_text;
  toBase64 := Base64.encode;
  fromBase64 := fun s => Ok (Base64.decode s);
  unpack := split ","%char;
  JSON := string;
  JSON_parse := fun s => if (s =? "?")%string then Throw (Foreign "SyntaxError") else Ok s;
  ComponentObjects := string;
  ComponentObjects_toString := fun o => o;
  ComponentObjects_fromString := fun s =>
    if (s =? "?")%string then Throw (Foreign "SyntaxError")
    else if (s =? "null")%string then Ok None else Ok (Some s);
  ConsumerComponent := raw_arg;
  ConsumerComponent_fromString := fun a =>
    match a with
    | RawString "?" => Throw (Foreign "SyntaxError")
    | RawString "null" => Ok None
    | _ => Ok (Some a)
    end;
  BitId := string;
  BitId_toString := fun id => id;
  PrivateKey := string;
  keyGetter := fun key =>
    match key with
    | Some k => Ok k
    | None => Throw (Foreign "ENOENT")
    end;
  Sequest := unit;
  sequest_connect := fun url privateKey =>
    if (privateKey =? "")%string then Throw (Foreign "EAUTH") else Ok tt;
  sequest_call := fun c cmd => (c, answer);
  sequest_end := fun c => Ok c
|}.

(** The reply of a command that exits with status 0 and prints [res]. *)
Definition success (res : string) : reply :=
  Callback None res (Some {| exit_code := Js.VNum 0 |}).

(** The reply of a command that fails with [code] and prints [res]. *)
Definition failure (code : Z) (res : string) : reply :=
  Callback (Some {| err_code := Js.VNum code; err_id := Js.VUndefined |}) res
           (Some {| exit_code := Js.VNum code |}).

(** The reply of a connection whose channel never came up: the callback
    gets an error and no third argument. *)
Definition no_channel : reply :=
  Callback (Some {| err_code := Js.VStr "ECONNREFUSED"; err_id := Js.VUndefined |})
           "" None.

Definition props (answer : reply) : @SSHProps (collaborators answer) :=
  {| props_path := "scopes/main";
     props_username := "git";
     props_port := (Port22 : @Number (collaborators answer));
     props_host := "example.org" |}.

(** A client that was never connected, and one holding a connection. *)
Definition fresh (answer : reply) : @SSH (collaborators answer) :=
  @new_SSH (collaborators answer) (props answer).

Definition connected (answer : reply) : @SSH (collaborators answer) :=
  @set_connection (collaborators answer) (fresh answer) tt.

(** A response of three lines, and what [clean] makes of it. *)
Definition three_lines : string :=
  "one" ++ String Js.LF ("two" ++ String Js.LF "three").

Definition three_lines_cleaned : string := "onetwo" ++ String Js.LF "three".

End Demo.

(** ** Strings *)

Section Strings.

Lemma append_nil_r (s : string) : s ++ "" = s.
Proof. induction s as [|c s IH]; simpl; [reflexivity | now rewrite IH]. Qed.

Lemma append_assoc (a b c : string) : (a ++ b) ++ c = a ++ b ++ c.
Proof. induction a as [|x a IH]; simpl; [reflexivity | now rewrite IH]. Qed.

Lemma length_append (a b : string) :
  String.length (a ++ b) = String.length a + String.length b.
Proof. induction a as [|x a IH]; simpl; [reflexivity | now rewrite IH]. Qed.

Lemma prefix_cons (a b : ascii) (p s : string) :
  String.prefix (String a p) (String b s) = Ascii.eqb a b && String.prefix p s.
Proof.
  simpl. destruct (ascii_dec a b) as [->|Hne].
  - now rewrite Ascii.eqb_refl.
  - apply Ascii.eqb_neq in Hne. now rewrite Hne.
Qed.

Lemma prefix_nil (s : string) : String.prefix "" s = true.
Proof. now destruct s. Qed.

Lemma prefix_spec (p s : string) :
  String.prefix p s = true <-> exists post, s = p ++ post.
Proof.
  revert s. induction p as [|a p IH]; intros s.
  - rewrite prefix_nil. split; [intros _; now exists s | reflexivity].
  - destruct s as [|b s].
    + simpl. split; [discriminate | intros [post Hpost]; discriminate].
    + rewrite prefix_cons, andb_true_iff, Ascii.eqb_eq, IH. split.
      * intros [-> [post ->]]. now exists post.
      * intros [post Hpost]. simpl in Hpost. injection Hpost as -> ->. eauto.
Qed.

Lemma has_char_append (c : ascii) (a b : string) :
  Js.has_char c (a ++ b) = Js.has_char c a || Js.has_char c b.
Proof.
  induction a as [|x a IH]; simpl; [reflexivity|].
  now rewrite IH, orb_assoc.
Qed.

Lemma has_char_count (c : ascii) (s : string) :
  Js.has_char c s = true <-> 0 < Js.count_char c s.
Proof.
  induction s as [|d s IH]; simpl.
  - split; [discriminate | lia].
  - destruct (Ascii.eqb d c); simpl; [split; [lia | reflexivity] | exact IH].
Qed.

(** [clean], one character at a time. *)
Lemma clean_nil : clean "" = "".
Proof. reflexivity. Qed.

Lemma clean_cons (c : ascii) (r : string) :
  clean (String c r) = if Ascii.eqb c Js.LF then r else String c (clean r).
Proof.
  unfold clean. cbn [Js.replace].
  rewrite prefix_cons, prefix_nil, andb_true_r, Ascii.eqb_sym.
  destruct (Ascii.eqb c Js.LF); reflexivity.
Qed.

Lemma clean_no_newline (s : string) :
  Js.has_char Js.LF s = false -> clean s = s.
Proof.
  induction s as [|c s IH]; [reflexivity|].
  rewrite clean_cons. simpl. destruct (Ascii.eqb c Js.LF); simpl; [discriminate|].
  intros Hs. now rewrite IH.
Qed.

Lemma clean_first_newline (a b : string) :
  Js.has_char Js.LF a = false -> clean (a ++ String Js.LF b) = a ++ b.
Proof.
  induction a as [|c a IH]; simpl Js.has_char; intros Ha.
  - simpl. rewrite clean_cons. now rewrite Ascii.eqb_refl.
  - simpl. rewrite clean_cons. destruct (Ascii.eqb c Js.LF); simpl in *; [discriminate|].
    now rewrite IH.
Qed.

Lemma clean_length (s : string) :
  Js.has_char Js.LF s = true -> S (String.length (clean s)) = String.length s.
Proof.
  induction s as [|c s IH]; simpl Js.has_char; [discriminate|].
  rewrite clean_cons. destruct (Ascii.eqb c Js.LF); simpl; [reflexivity|].
  intros Hs. now rewrite IH.
Qed.

Lemma clean_count (s : string) :
  Js.has_char Js.LF s = true ->
  S (Js.count_char Js.LF (clean s)) = Js.count_char Js.LF s.
Proof.
  induction s as [|c s IH]; simpl Js.has_char; [discriminate|].
  rewrite clean_cons. cbn [Js.count_char].
  destruct (Ascii.eqb c Js.LF) eqn:Hc; cbn [Js.count_char orb]; [lia|].
  rewrite Hc. intros Hs. specialize (IH Hs). lia.
Qed.

(** A string with a line feed splits at the first one. *)
Lemma split_first_newline (s : string) :
  Js.has_char Js.LF s = true ->
  exists a b, s = a ++ String Js.LF b /\ Js.has_char Js.LF a = false.
Proof.
  induction s as [|c s IH]; simpl; [discriminate|].
  destruct (Ascii.eqb c Js.LF) eqn:Hc; simpl.
  - intros _. apply Ascii.eqb_eq in Hc as ->. now exists "", s.
  - intros Hs. destruct (IH Hs) as (a & b & -> & Ha).
    exists (String c a), b. simpl. now rewrite Hc.
Qed.

Lemma str_or_empty (s : string) : Js.str_or s "" = s.
Proof. unfold Js.str_or, Js.nonempty. now destruct s. Qed.

Lemma join_cons (sep x : string) (l : list string) :
  Js.join sep (x :: l) = x ++ List.fold_right (fun y acc => sep ++ y ++ acc) "" l.
Proof.
  revert x. induction l as [|y l IH]; intros x.
  - simpl. now rewrite append_nil_r.
  - change (Js.join sep (x :: y :: l)) with (x ++ sep ++ Js.join sep (y :: l)).
    now rewrite IH.
Qed.

End Strings.

(** ** The command encoder, the classifier and [exec] *)

Section Exec.
Context `{Collaborators}.

Lemma strict_eq_num (v : Js.value) (n : Z) :
  Js.strict_eq v (Js.VNum n) = true <-> v = Js.VNum n.
Proof.
  destruct v; simpl; try (split; [discriminate | intros [=]]).
  rewrite Z.eqb_eq. split; [now intros -> | now intros [= ->]].
Qed.

Lemma strict_eq_num_false (v : Js.value) (n : Z) :
  v <> Js.VNum n -> Js.strict_eq v (Js.VNum n) = false.
Proof.
  intros Hne. destruct (Js.strict_eq v (Js.VNum n)) eqn:E; [|reflexivity].
  apply strict_eq_num in E. contradiction.
Qed.

(** The classifier only produces four kinds of error. *)
Lemma errorHandler_range (err : err_obj) (optionalId : Js.value) :
  errorHandler err optionalId = UnexpectedNetworkError \/
  (exists id, errorHandler err optionalId = ComponentNotFound id) \/
  errorHandler err optionalId = PermissionDenied \/
  errorHandler err optionalId = RemoteScopeNotFound.
Proof.
  unfold errorHandler.
  repeat match goal with |- context [if ?b then _ else _] => destruct b end; eauto.
Qed.

Lemma exec_no_connection (this : SSH) (op : string) (args : list string) :
  connection this = None ->
  exec this op args = {| client := this; sent := []; settled := Rejected TypeError |}.
Proof. intros Hc. unfold exec. now rewrite Hc. Qed.

Lemma exec_connected (this : SSH) (op : string) (args : list string)
      (c c' : Sequest) (r : reply) :
  connection this = Some c ->
  sequest_call c (command_line this op args) = (c', r) ->
  exec this op args =
    {| client := set_connection this c';
       sent := [command_line this op args];
       settled := match r with
                  | Callback err res o => exec_callback err res o
                  | CallThrows e => Rejected e
                  end |}.
Proof. intros Hc Hcall. unfold exec. now rewrite Hc, Hcall. Qed.

Lemma exec_sent (this : SSH) (op : string) (args : list string) (c : Sequest) :
  connection this = Some c -> sent (exec this op args) = [command_line this op args].
Proof.
  intros Hc. destruct (sequest_call c (command_line this op args)) as [c' r] eqn:Hcall.
  now rewrite (exec_connected _ _ _ _ _ _ Hc Hcall).
Qed.

Lemma exec_callback_resolved (err : option err_obj) (res : string)
      (o : option exit_obj) (v : string) :
  exec_callback err res o = Resolved v -> v = clean res /\ o <> None.
Proof.
  unfold exec_callback. destruct o as [o|]; [|discriminate].
  destruct err as [err|].
  - destruct (_ && _); [discriminate | now intros [= <-]].
  - now intros [= <-].
Qed.

(** A command that exits with status 0 resolves, whatever [err] is. *)
Lemma exec_callback_status_0 (err : option err_obj) (res : string) (o : exit_obj) :
  exit_code o = Js.VNum 0 -> exec_callback err res (Some o) = Resolved (clean res).
Proof. intros Ho. unfold exec_callback. rewrite Ho. now destruct err. Qed.

Lemma exec_resolved_inv (this : SSH) (op : string) (args : list string) (v : string) :
  settled (exec this op args) = Resolved v ->
  exists c c' err res o,
    connection this = Some c /\
    sequest_call c (command_line this op args) = (c', Callback err res (Some o)) /\
    v = clean res.
Proof.
  unfold exec. destruct (connection this) as [c|]; [|discriminate].
  destruct (sequest_call c _) as [c' [err res o|e]] eqn:Hcall; simpl; [|discriminate].
  intros Hv. apply exec_callback_resolved in Hv as [-> Ho].
  destruct o as [o|]; [|contradiction]. now exists c, c', err, res, o.
Qed.

Lemma command_line_unfold (this : SSH) (op : string) (args : list string) :
  command_line this op args =
  "bit " ++ op ++ " " ++ toBase64 (absolutePath (path this)) ++
    List.fold_right (fun a acc => " " ++ toBase64 a ++ acc) "" args.
Proof.
  unfold command_line, buildCmd. rewrite str_or_empty.
  cbn [List.map]. rewrite join_cons.
  replace (List.fold_right (fun y acc => " " ++ y ++ acc) ""
             (List.map (fun val => toBase64 val) args))
    with (List.fold_right (fun a acc => " " ++ toBase64 a ++ acc) "" args);
    [reflexivity|].
  induction args as [|a args IH]; [reflexivity|].
  cbn [List.map List.fold_right]. now rewrite IH.
Qed.

End Exec.

Section ExecClaims.
Context `{Collaborators}.

(** C1, as the code has it. For a completion of an executed command the
    classifier produces one error kind, by the fixed table. A completion
    without the third callback argument (no output at all) is rejected
    with [UnexpectedNetworkError]. A completion with an error object and a
    truthy exit code is rejected with the kind the classifier gives for the
    status [err.code] of the error object: 127 gives [ComponentNotFound],
    whose id is the id reported in [err.id] when it is present (truthy) and
    the raw output text of the command otherwise ([exec] passes that text
    where the classifier expects an id, not an id of the caller of the
    operation); 128 and 130 give [PermissionDenied]; 129 gives
    [RemoteScopeNotFound]; every other status gives
    [UnexpectedNetworkError]. The kind is one of these four, and [exec]
    rejects such a completion with no other error. *)
Theorem exec_error_table (err : err_obj) (res : string) (o : exit_obj) :
  (forall e, exec_callback e res None = Rejected UnexpectedNetworkError)
  /\ (Js.truthy (exit_code o) = true ->
      exec_callback (Some err) res (Some o)
      = Rejected (errorHandler err (Js.VStr res)))
  /\ (forall kind, exec_callback (Some err) res (Some o) = Rejected kind ->
      kind = errorHandler err (Js.VStr res))
  /\ (err_code err = Js.VNum 127 ->
      (Js.truthy (err_id err) = true ->
       errorHandler err (Js.VStr res) = ComponentNotFound (err_id err))
      /\ (Js.truthy (err_id err) = false ->
          errorHandler err (Js.VStr res) = ComponentNotFound (Js.VStr res)))
  /\ (err_code err = Js.VNum 128 ->
      errorHandler err (Js.VStr res) = PermissionDenied)
  /\ (err_code err = Js.VNum 129 ->
      errorHandler err (Js.VStr res) = RemoteScopeNotFound)
  /\ (err_code err = Js.VNum 130 ->
      errorHandler err (Js.VStr res) = PermissionDenied)
  /\ (err_code err <> Js.VNum 127 -> err_code err <> Js.VNum 128 ->
      err_code err <> Js.VNum 129 -> err_code err <> Js.VNum 130 ->
      errorHandler err (Js.VStr res) = UnexpectedNetworkError)
  /\ (errorHandler err (Js.VStr res) = UnexpectedNetworkError
      \/ (exists id, errorHandler err (Js.VStr res) = ComponentNotFound id)
      \/ errorHandler err (Js.VStr res) = PermissionDenied
      \/ errorHandler err (Js.VStr res) = RemoteScopeNotFound).
Proof.
  split; [reflexivity|].
  split; [|split; [|split; [|split; [|split; [|split; [|split]]]]]].
  - intros Ht. unfold exec_callback. rewrite Ht.
    destruct (Js.strict_eq (exit_code o) (Js.VNum 0)) eqn:E; [|reflexivity].
    apply strict_eq_num in E. rewrite E in Ht. discriminate.
  - intros kind. unfold exec_callback.
    destruct (_ && _); [now intros [= <-] | discriminate].
  - intros Hc. unfold errorHandler, Js.or. rewrite Hc. simpl.
    split; intros ->; reflexivity.
  - intros Hc. unfold errorHandler. now rewrite Hc.
  - intros Hc. unfold errorHandler. now rewrite Hc.
  - intros Hc. unfold errorHandler. now rewrite Hc.
  - intros H127 H128 H129 H130. unfold errorHandler.
    now rewrite !strict_eq_num_false.
  - apply errorHandler_range.
Qed.


(** C10. Whenever [exec] resolves, it resolves with the raw output from
    which [clean] has removed the first line feed and nothing else: the
    text before the first line feed and all the text after it, later line
    feeds included, are kept, so an output with a line feed is never
    returned as it is (it is one character and one line feed shorter),
    while an output without one is returned unchanged. *)
Theorem exec_resolves_cleaned (this : SSH) (op : string) (args : list string)
        (v : string) :
  settled (exec this op args) = Resolved v ->
  exists res,
    (exists c c' err o,
        connection this = Some c /\
        sequest_call c (command_line this op args)
          = (c', Callback err res (Some o)))
    /\ v = clean res
    /\ (forall a b, res = a ++ String Js.LF b -> Js.has_char Js.LF a = false ->
        v = a ++ b)
    /\ (Js.has_char Js.LF res = true ->
        v <> res
        /\ S (String.length v) = String.length res
        /\ S (Js.count_char Js.LF v) = Js.count_char Js.LF res)
    /\ (Js.has_char Js.LF res = false -> v = res).
Proof.
  intros Hv. apply exec_resolved_inv in Hv as (c & c' & err & res & o & Hc & Hcall & ->).
  exists res. split; [now exists c, c', err, o|]. split; [reflexivity|].
  split; [|split].
  - intros a b -> Ha. now apply clean_first_newline.
  - intros Hnl. split; [|split].
    + intros Heq. apply clean_length in Hnl. rewrite Heq in Hnl. lia.
    + now apply clean_length.
    + now apply clean_count.
  - apply clean_no_newline.
Qed.

End ExecClaims.

(** The table at the statuses 127 to 130 and at status 1, for a failure that
    reports no id and prints [x/y], and one that reports the id [a/b]. *)
Lemma exec_error_table_witness :
  exec_callback (Some {| err_code := Js.VNum 127; err_id := Js.VUndefined |}) "x/y"
                (Some {| exit_code := Js.VNum 127 |})
    = Rejected (ComponentNotFound (Js.VStr "x/y"))
  /\ exec_callback (Some {| err_code := Js.VNum 127; err_id := Js.VStr "a/b" |}) "x/y"
                   (Some {| exit_code := Js.VNum 127 |})
     = Rejected (ComponentNotFound (Js.VStr "a/b"))
  /\ errorHandler {| err_code := Js.VNum 128; err_id := Js.VUndefined |} (Js.VStr "")
     = PermissionDenied
  /\ errorHandler {| err_code := Js.VNum 129; err_id := Js.VUndefined |} (Js.VStr "")
     = RemoteScopeNotFound
  /\ errorHandler {| err_code := Js.VNum 130; err_id := Js.VUndefined |} (Js.VStr "")
     = PermissionDenied
  /\ errorHandler {| err_code := Js.VNum 1; err_id := Js.VUndefined |} (Js.VStr "")
     = UnexpectedNetworkError.
Proof.
  refine (conj _ (conj _ (conj _ (conj _ (conj _ _))))).
  - destruct (exec_error_table {| err_code := Js.VNum 127; err_id := Js.VUndefined |}
                "x/y" {| exit_code := Js.VNum 127 |}) as (_ & Hexec & _ & H127 & _).
    rewrite (Hexec eq_refl). apply (f_equal Rejected). apply H127; reflexivity.
  - destruct (exec_error_table {| err_code := Js.VNum 127; err_id := Js.VStr "a/b" |}
                "x/y" {| exit_code := Js.VNum 127 |}) as (_ & Hexec & _ & H127 & _).
    rewrite (Hexec eq_refl). apply (f_equal Rejected). apply H127; reflexivity.
  - destruct (exec_error_table {| err_code := Js.VNum 128; err_id := Js.VUndefined |}
                "" {| exit_code := Js.VNum 127 |}) as (_ & _ & _ & _ & H128 & _).
    apply H128; reflexivity.
  - destruct (exec_error_table {| err_code := Js.VNum 129; err_id := Js.VUndefined |}
                "" {| exit_code := Js.VNum 127 |}) as (_ & _ & _ & _ & _ & H129 & _).
    apply H129; reflexivity.
  - destruct (exec_error_table {| err_code := Js.VNum 130; err_id := Js.VUndefined |}
                "" {| exit_code := Js.VNum 127 |}) as (_ & _ & _ & _ & _ & _ & H130 & _).
    apply H130; reflexivity.
  - destruct (exec_error_table {| err_code := Js.VNum 1; err_id := Js.VUndefined |}
                "" {| exit_code := Js.VNum 127 |}) as (_ & _ & _ & _ & _ & _ & _ & Hother & _).
    apply Hother; simpl; discriminate.
Defined.

(** Against C1 as stated: [show] of the id [a/b], answered with status 127
    and no reported id, is rejected with [ComponentNotFound] of the output
    text, not of the id the caller supplied. *)
Lemma not_found_id_is_not_the_callers :
  settled (@show (Demo.collaborators (Demo.failure 127 "no such component"))
             (Demo.connected (Demo.failure 127 "no such component")) "a/b")
    = Rejected (ComponentNotFound (Js.VStr "no such component"))
  /\ settled (@show (Demo.collaborators (Demo.failure 127 "no such component"))
                (Demo.connected (Demo.failure 127 "no such component")) "a/b")
     <> Rejected (ComponentNotFound (Js.VStr "a/b")).
Proof.
  split; [reflexivity|]. vm_compute. discriminate.
Qed.


(** A response of three lines loses its first line feed only. *)
Lemma exec_resolves_cleaned_witness :
  settled (@exec (Demo.collaborators (Demo.success Demo.three_lines))
             (Demo.connected (Demo.success Demo.three_lines)) "_list" [])
    = Resolved Demo.three_lines_cleaned
  /\ Demo.three_lines_cleaned <> Demo.three_lines
  /\ Js.count_char Js.LF Demo.three_lines_cleaned = 1.
Proof.
  split; [reflexivity|].
  destruct (@exec_resolves_cleaned (Demo.collaborators (Demo.success Demo.three_lines))
              (Demo.connected (Demo.success Demo.three_lines)) "_list" []
              Demo.three_lines_cleaned eq_refl)
    as (res & (c & c' & err & o & Hc & Hcall) & Hv & Hfirst & Hnl & _).
  injection Hcall as _ _ <- _.
  destruct (Hnl eq_refl) as (Hne & _ & Hcount).
  split; [exact Hne | exact (eq_add_S _ 1 Hcount)].
Defined.

(** ** The operations *)

Section Operations.
Context `{Collaborators}.

Lemma map_result_Forall2 {A B : Type} (f : A -> result B) (l : list A) (l' : list B) :
  map_result f l = Ok l' <-> Forall2 (fun x y => f x = Ok y) l l'.
Proof.
  revert l'. induction l as [|x l IH]; intros l'; simpl.
  - split.
    + intros [= <-]. constructor.
    + intros Hl. inversion Hl. reflexivity.
  - split.
    + destruct (f x) as [y|e] eqn:Hx; simpl; [|discriminate].
      destruct (map_result f l) as [ys|e] eqn:Hl; simpl; [|discriminate].
      intros [= <-]. constructor; [assumption | now apply IH].
    + intros Hl. inversion Hl as [|? y ? ys Hx Hys]; subst.
      rewrite Hx. simpl. apply IH in Hys. now rewrite Hys.
Qed.

Lemma map_result_length {A B : Type} (f : A -> result B) (l : list A) (l' : list B) :
  map_result f l = Ok l' -> length l' = length l.
Proof.
  intros Hl. apply map_result_Forall2 in Hl.
  induction Hl; simpl; congruence.
Qed.

Lemma rejectNils_Forall {A : Type} (l : list (option A)) :
  Forall (fun x => x <> None) (rejectNils l).
Proof.
  induction l as [|[a|] l IH]; simpl; [constructor | | assumption].
  constructor; [discriminate | assumption].
Qed.

Lemma rejectNils_sublist {A : Type} (l : list (option A)) :
  sublist (rejectNils l) l.
Proof.
  induction l as [|[a|] l IH]; simpl.
  - constructor.
  - now apply sublist_skip.
  - now apply sublist_cons.
Qed.

Lemma rejectNils_length {A : Type} (l : list (option A)) :
  length (rejectNils l) + length (List.filter isNil l) = length l.
Proof. induction l as [|[a|] l IH]; simpl; lia. Qed.

Lemma rejectNils_elem {A : Type} (l : list (option A)) (x : option A) :
  x ∈ rejectNils l <-> x ∈ l /\ x <> None.
Proof.
  induction l as [|[a|] l IH]; simpl.
  - rewrite elem_of_nil. tauto.
  - rewrite !elem_of_cons, IH. split.
    + intros [->|[Hx Hn]]; split; auto; discriminate.
    + intros [[->|Hx] Hn]; auto.
  - rewrite elem_of_cons, IH. split.
    + intros [Hx Hn]; auto.
    + intros [[->|Hx] Hn]; [contradiction | auto].
Qed.

Lemma errorHandler_not_NetworkError (err : err_obj) (id : Js.value) (msg : string) :
  errorHandler err id <> NetworkError msg.
Proof.
  destruct (errorHandler_range err id) as [E|[[i E]|[E|E]]]; rewrite E; discriminate.
Qed.

Lemma errorHandler_not_TypeError (err : err_obj) (id : Js.value) :
  errorHandler err id <> TypeError.
Proof.
  destruct (errorHandler_range err id) as [E|[[i E]|[E|E]]]; rewrite E; discriminate.
Qed.

(** C4. When [exec] of [_put] resolves with the text the remote echoed:
    if that text is the base64 form of the serialized objects, and
    decoding and deserializing give the objects back, [push] resolves
    with the objects; if decoding or deserializing the text throws,
    [push] rejects with [NetworkError] carrying the text, an error that
    the classifier never produces and that is not
    [UnexpectedNetworkError]. *)
Theorem push_echo_or_decode_error (this : SSH) (objects : ComponentObjects)
        (str : string) :
  settled (exec this "_put" [ComponentObjects_toString objects]) = Resolved str ->
  (str = toBase64 (ComponentObjects_toString objects) ->
   fromBase64 (toBase64 (ComponentObjects_toString objects))
     = Ok (ComponentObjects_toString objects) ->
   ComponentObjects_fromString (ComponentObjects_toString objects) = Ok (Some objects) ->
   settled (push this objects) = Resolved (Some objects))
  /\ (forall e,
        fromBase64 str = Throw e
        \/ (exists decoded, fromBase64 str = Ok decoded
                            /\ ComponentObjects_fromString decoded = Throw e) ->
        settled (push this objects) = Rejected (NetworkError str)
        /\ NetworkError str <> UnexpectedNetworkError
        /\ forall err id, errorHandler err id <> NetworkError str).
Proof.
  intros Hexec. unfold push, run_then. cbn [settled]. rewrite Hexec. split.
  - intros -> Hdec Hobj. simpl. rewrite Hdec. simpl. now rewrite Hobj.
  - intros e He. split; [|split; [discriminate|]].
    + simpl. destruct He as [He|(decoded & Hdec & He)].
      * now rewrite He.
      * rewrite Hdec. simpl. now rewrite He.
    + intros err id. apply errorHandler_not_NetworkError.
Qed.

(** C5. [describeScope] rejects with [RemoteScopeNotFound] and nothing
    else: when [exec] rejects (no connection, no output, a remote
    failure of any status), when the base64 decoding throws and when
    [JSON.parse] throws. When all three succeed it resolves with the
    parsed scope metadata. *)
Theorem describeScope_uniform_failure (this : SSH) :
  (forall e, settled (describeScope this) = Rejected e -> e = RemoteScopeNotFound)
  /\ (forall e, settled (exec this "_scope" []) = Rejected e ->
      settled (describeScope this) = Rejected RemoteScopeNotFound)
  /\ (forall data e,
        settled (exec this "_scope" []) = Resolved data ->
        fromBase64 data = Throw e ->
        settled (describeScope this) = Rejected RemoteScopeNotFound)
  /\ (forall data decoded e,
        settled (exec this "_scope" []) = Resolved data ->
        fromBase64 data = Ok decoded ->
        JSON_parse decoded = Throw e ->
        settled (describeScope this) = Rejected RemoteScopeNotFound)
  /\ (forall data decoded scope,
        settled (exec this "_scope" []) = Resolved data ->
        fromBase64 data = Ok decoded ->
        JSON_parse decoded = Ok scope ->
        settled (describeScope this) = Resolved scope).
Proof.
  unfold describeScope, run_catch, run_then. cbn [settled].
  split; [|split; [|split; [|split]]].
  - intros e. destruct (settled (exec this "_scope" [])) as [data|e0]; simpl.
    + destruct (fromBase64 data) as [decoded|e1]; simpl.
      * destruct (JSON_parse decoded); simpl; [discriminate | now intros [= <-]].
      * now intros [= <-].
    + now intros [= <-].
  - intros e ->. reflexivity.
  - intros data e -> Hdec. simpl. now rewrite Hdec.
  - intros data decoded e -> Hdec Hparse. simpl. rewrite Hdec. simpl. now rewrite Hparse.
  - intros data decoded scope -> Hdec Hparse. simpl. rewrite Hdec. simpl. now rewrite Hparse.
Qed.

(** C8. When [exec] of [_show] resolves with an empty payload, [show]
    resolves with no component ([null]) and does not reject; with a
    non-empty payload it makes one call of [ConsumerComponent.fromString],
    on the unpacked payload, and resolves with the component that call
    returns. *)
Theorem show_empty_is_not_found (this : SSH) (id : BitId) (str : string) :
  settled (exec this "_show" [BitId_toString id]) = Resolved str ->
  (str = "" -> settled (show this id) = Resolved None)
  /\ (str <> "" ->
      forall component,
        ConsumerComponent_fromString (RawArray (unpack str)) = Ok component ->
        settled (show this id) = Resolved component).
Proof.
  intros Hexec. unfold show, run_then. cbn [settled]. rewrite Hexec. split.
  - intros ->. reflexivity.
  - intros Hne component Hc. simpl. unfold Js.nonempty.
    destruct (String.eqb_spec str ""); [contradiction|]. simpl. now rewrite Hc.
Qed.

End Operations.

(** [push] of the object ["objects"]: echoed back in base64, and answered
    with the base64 form of a text that does not deserialize. *)
Lemma push_echo_or_decode_error_witness :
  settled (@push (Demo.collaborators (Demo.success (Base64.encode "objects")))
             (Demo.connected (Demo.success (Base64.encode "objects"))) "objects")
    = Resolved (Some "objects")
  /\ settled (@push (Demo.collaborators (Demo.success (Base64.encode "?")))
                (Demo.connected (Demo.success (Base64.encode "?"))) "objects")
     = Rejected (NetworkError (Base64.encode "?")).
Proof.
  split.
  - apply (proj1 (@push_echo_or_decode_error
                    (Demo.collaborators (Demo.success (Base64.encode "objects")))
                    (Demo.connected (Demo.success (Base64.encode "objects")))
                    "objects" (Base64.encode "objects") eq_refl)); reflexivity.
  - apply (proj2 (@push_echo_or_decode_error
                    (Demo.collaborators (Demo.success (Base64.encode "?")))
                    (Demo.connected (Demo.success (Base64.encode "?")))
                    "objects" (Base64.encode "?") eq_refl) (Foreign "SyntaxError")).
    right. exists "?". split; reflexivity.
Defined.

(** [describeScope] on a client that was never connected, on a remote
    failure with status 128, on a payload that does not parse, and on a
    payload that does. *)
Lemma describeScope_uniform_failure_witness :
  settled (@describeScope (Demo.collaborators (Demo.success ""))
             (Demo.fresh (Demo.success ""))) = Rejected RemoteScopeNotFound
  /\ settled (@describeScope (Demo.collaborators (Demo.failure 128 ""))
                (Demo.connected (Demo.failure 128 ""))) = Rejected RemoteScopeNotFound
  /\ settled (@describeScope (Demo.collaborators (Demo.success (Base64.encode "?")))
                (Demo.connected (Demo.success (Base64.encode "?"))))
     = Rejected RemoteScopeNotFound
  /\ settled (@describeScope (Demo.collaborators (Demo.success (Base64.encode "{}")))
                (Demo.connected (Demo.success (Base64.encode "{}"))))
     = Resolved "{}".
Proof.
  refine (conj _ (conj _ (conj _ _))).
  - destruct (@describeScope_uniform_failure (Demo.collaborators (Demo.success ""))
                (Demo.fresh (Demo.success ""))) as (_ & Hexec & _).
    apply (Hexec TypeError). reflexivity.
  - destruct (@describeScope_uniform_failure (Demo.collaborators (Demo.failure 128 ""))
                (Demo.connected (Demo.failure 128 ""))) as (_ & Hexec & _).
    apply (Hexec PermissionDenied). reflexivity.
  - destruct (@describeScope_uniform_failure
                (Demo.collaborators (Demo.success (Base64.encode "?")))
                (Demo.connected (Demo.success (Base64.encode "?"))))
      as (_ & _ & _ & Hparse & _).
    apply (Hparse (Base64.encode "?") "?" (Foreign "SyntaxError")); reflexivity.
  - destruct (@describeScope_uniform_failure
                (Demo.collaborators (Demo.success (Base64.encode "{}")))
                (Demo.connected (Demo.success (Base64.encode "{}"))))
      as (_ & _ & _ & _ & Hok).
    apply (Hok (Base64.encode "{}") "{}" "{}"); reflexivity.
Defined.

(** [show] of [a/b] on an empty payload and on the payload ["x"]. *)
Lemma show_empty_is_not_found_witness :
  settled (@show (Demo.collaborators (Demo.success ""))
             (Demo.connected (Demo.success "")) "a/b") = Resolved None
  /\ settled (@show (Demo.collaborators (Demo.success "x"))
                (Demo.connected (Demo.success "x")) "a/b")
     = Resolved (Some (RawArray ["x"])).
Proof.
  split.
  - apply (proj1 (@show_empty_is_not_found (Demo.collaborators (Demo.success ""))
                    (Demo.connected (Demo.success "")) "a/b" "" eq_refl)).
    reflexivity.
  - apply (proj2 (@show_empty_is_not_found (Demo.collaborators (Demo.success "x"))
                    (Demo.connected (Demo.success "x")) "a/b" "x" eq_refl)).
    + discriminate.
    + reflexivity.
Defined.

(** ** [list], [fetch] and the connection lifecycle *)

Section Lifecycle.
Context `{Collaborators}.

Lemma includes_spec (s p : string) :
  Js.includes s p = true <-> exists pre post, s = pre ++ p ++ post.
Proof.
  induction s as [|c s IH]; cbn [Js.includes]; rewrite orb_true_iff.
  - split.
    + intros [Hp|Hf]; [|discriminate]. apply prefix_spec in Hp as [post Hp].
      now exists "", post.
    + intros (pre & post & Hs). left. apply prefix_spec.
      destruct pre; [|discriminate]. now exists post.
  - split.
    + intros [Hp|Hi].
      * apply prefix_spec in Hp as [post Hp]. now exists "", post.
      * apply IH in Hi as (pre & post & ->). now exists (String c pre), post.
    + intros (pre & post & Hs). destruct pre as [|d pre].
      * left. apply prefix_spec. now exists post.
      * right. apply IH. simpl in Hs. injection Hs as _ ->. now exists pre, post.
Qed.

Lemma close_connected (this : SSH) (c : Sequest) :
  connection this = Some c ->
  close this = match sequest_end c with
               | Ok c' => Ok (set_connection this c')
               | Throw e => Throw e
               end.
Proof. intros Hc. unfold close. rewrite Hc. now destruct (sequest_end c). Qed.

Lemma close_Ok_inv (this this' : SSH) :
  close this = Ok this' ->
  exists c c', connection this = Some c /\ sequest_end c = Ok c'
               /\ this' = set_connection this c'.
Proof.
  unfold close. destruct (connection this) as [c|]; [|discriminate].
  destruct (sequest_end c) as [c'|e] eqn:Hend; simpl; [|discriminate].
  intros [= <-]. now exists c, c'.
Qed.

(** C2, as the code has it. For [fetch] of the single id [a/b@1.0.0]
    without dependencies, the command line handed to the connection is
    [bit _fetch -n] followed by the base64 text of the working path and
    the base64 text of the id: the flag [-n] travels as plain text inside
    the operation name and is not encoded. When [exec] resolves with a
    payload that unpacks to one item and that item deserializes to a
    bundle, [fetch] resolves with exactly that one bundle. *)
Theorem fetch_single_no_dependencies (this : SSH) (id : BitId) (c : Sequest) :
  connection this = Some c ->
  BitId_toString id = "a/b@1.0.0" ->
  sent (fetch this [id] true) =
    ["bit _fetch -n " ++ toBase64 (absolutePath (path this)) ++ " "
       ++ toBase64 "a/b@1.0.0"]
  /\ (forall str item bundle,
        settled (exec this "_fetch -n" ["a/b@1.0.0"]) = Resolved str ->
        unpack str = [item] ->
        ComponentObjects_fromString item = Ok (Some bundle) ->
        settled (fetch this [id] true) = Resolved [Some bundle]).
Proof.
  intros Hc Hid. unfold fetch, run_then. cbn [sent settled List.map].
  rewrite Hid. change ("_fetch " ++ "-n") with "_fetch -n". split.
  - rewrite (exec_sent _ _ _ _ Hc), command_line_unfold.
    cbn [List.fold_right]. now rewrite append_nil_r.
  - intros str item bundle -> Hitems Hitem. simpl. rewrite Hitems. simpl.
    now rewrite Hitem.
Qed.

(** C6, as the code has it. When [exec] of [_list] resolves and every
    non-empty unpacked item deserializes without a throw, [list] resolves
    with the deserialized items from which the nil ones, and the nil that
    stands for an empty item, have been removed: no element is nil, the
    elements are a subsequence of the deserialized items in their order,
    every non-nil item is kept, and only nil ones are missing. [fetch]
    does not filter: when every unpacked item deserializes without a
    throw it resolves with all the results in payload order, one per
    item, nil results included. *)
Theorem list_drops_nils_fetch_keeps_all (this : SSH) :
  (forall str decoded,
      settled (exec this "_list" []) = Resolved str ->
      Forall2 (fun c d =>
                 (if Js.nonempty c then ConsumerComponent_fromString (RawString c)
                  else Ok None) = Ok d)
              (unpack str) decoded ->
      exists components,
        settled (list_ this) = Resolved components
        /\ Forall (fun x => x <> None) components
        /\ sublist components decoded
        /\ (forall x, x <> None -> x ∈ decoded -> x ∈ components)
        /\ length components + length (List.filter isNil decoded) = length decoded)
  /\ (forall (ids : list BitId) (noDeps : bool) str decoded,
        settled (exec this ("_fetch " ++ (if noDeps then "-n" else ""))
                      (List.map BitId_toString ids)) = Resolved str ->
        Forall2 (fun raw d => ComponentObjects_fromString raw = Ok d)
                (unpack str) decoded ->
        settled (fetch this ids noDeps) = Resolved decoded
        /\ length decoded = length (unpack str)).
Proof.
  split.
  - intros str decoded Hexec Hdec. exists (rejectNils decoded).
    split; [|split; [|split; [|split]]].
    + unfold list_, run_then. cbn [settled]. rewrite Hexec. simpl.
      apply map_result_Forall2 in Hdec. now rewrite Hdec.
    + apply rejectNils_Forall.
    + apply rejectNils_sublist.
    + intros x Hx Hin. now apply rejectNils_elem.
    + apply rejectNils_length.
  - intros ids noDeps str decoded Hexec Hdec. split.
    + change (settled (fetch this ids noDeps))
        with (then_ (settled (exec this ("_fetch " ++ (if noDeps then "-n" else ""))
                                   (List.map BitId_toString ids)))
                    (fun str => map_result ComponentObjects_fromString (unpack str))).
      rewrite Hexec. simpl.
      apply map_result_Forall2 in Hdec. now rewrite Hdec.
    + symmetry. eapply Forall2_length. exact Hdec.
Qed.

(** C7, as the code has it. The client keeps no closed state and checks
    nothing. With no connection ever opened, [close] raises a [TypeError]
    and [exec] hands nothing to any connection and rejects with a
    [TypeError], which is none of the classifier's kinds. With a
    connection, [close] calls [end()] on it, raising what that call
    raises and otherwise returning the client with the connection still
    in place: a second [close] calls [end()] on the same connection
    again, and an [exec] after [close] still hands its command line to
    that connection. *)
Theorem close_keeps_connection (this : SSH) :
  (connection this = None ->
   close this = Throw TypeError
   /\ forall op args,
        settled (exec this op args) = Rejected TypeError
        /\ sent (exec this op args) = [])
  /\ (forall c, connection this = Some c ->
        close this = match sequest_end c with
                     | Ok c' => Ok (set_connection this c')
                     | Throw e => Throw e
                     end)
  /\ (forall this', close this = Ok this' ->
        exists c', connection this' = Some c'
          /\ close this' = match sequest_end c' with
                           | Ok c'' => Ok (set_connection this' c'')
                           | Throw e => Throw e
                           end
          /\ forall op args,
               sent (exec this' op args) = [command_line this' op args])
  /\ (forall err id, errorHandler err id <> TypeError)
  /\ TypeError <> UnexpectedNetworkError.
Proof.
  split; [|split; [|split; [|split]]].
  - intros Hc. split.
    + unfold close. now rewrite Hc.
    + intros op args. now rewrite (exec_no_connection _ _ _ Hc).
  - apply close_connected.
  - intros this' Hclose.
    apply close_Ok_inv in Hclose as (c & c' & Hc & Hend & ->).
    exists c'. split; [reflexivity|]. split.
    + now apply close_connected.
    + intros op args. now apply (exec_sent _ _ _ c').
  - apply errorHandler_not_TypeError.
  - discriminate.
Qed.

(** C9, as the code has it. [connect] hands no command to any connection.
    It rejects exactly when reading the key or the call of
    [sequest.connect] throws, with the error thrown, and then leaves the
    client as it was. Otherwise it resolves at once, with the client
    holding the connection that the call returned, to which every later
    [exec] hands its command line: it does not wait for the channel to be
    established, so a failure of authentication or of the network that is
    not thrown by that call is not reported by [connect]. *)
Theorem connect_settles {U : Type} (this : SSH) (sshUrl : U) (key : option string) :
  sent (connect this sshUrl key) = []
  /\ (forall e,
        settled (connect this sshUrl key) = Rejected e <->
        keyGetter key = Throw e
        \/ exists privateKey,
             keyGetter key = Ok privateKey
             /\ sequest_connect (composeConnectionUrl this) privateKey = Throw e)
  /\ (forall e, settled (connect this sshUrl key) = Rejected e ->
        client (connect this sshUrl key) = this)
  /\ (forall this',
        settled (connect this sshUrl key) = Resolved this' <->
        exists privateKey c,
          keyGetter key = Ok privateKey
          /\ sequest_connect (composeConnectionUrl this) privateKey = Ok c
          /\ this' = set_connection this c)
  /\ (forall this',
        settled (connect this sshUrl key) = Resolved this' ->
        client (connect this sshUrl key) = this'
        /\ exists c, connection this' = Some c
             /\ forall op args,
                  sent (exec this' op args) = [command_line this' op args]).
Proof.
  unfold connect.
  destruct (keyGetter key) as [privateKey|e0] eqn:Hkey; simpl.
  - destruct (sequest_connect (composeConnectionUrl this) privateKey)
      as [c|e1] eqn:Hconn; simpl.
    + split; [reflexivity|]. split; [|split; [|split]].
      * intros e. split; [discriminate|].
        intros [?|(k & [= <-] & Hk)]; [discriminate | congruence].
      * discriminate.
      * intros this'. split.
        -- intros [= <-]. now exists privateKey, c.
        -- intros (k & c0 & [= <-] & Hk & ->). congruence.
      * intros this' [= <-]. split; [reflexivity|].
        exists c. split; [reflexivity|].
        intros op args. now apply (exec_sent _ _ _ c).
    + split; [reflexivity|]. split; [|split; [|split]].
      * intros e. split.
        -- intros [= <-]. right. now exists privateKey.
        -- intros [?|(k & [= <-] & Hk)]; [discriminate | congruence].
      * reflexivity.
      * intros this'. split; [discriminate|].
        intros (k & c0 & [= <-] & Hk & _). congruence.
      * discriminate.
  - split; [reflexivity|]. split; [|split; [|split]].
    + intros e. split.
      * intros [= <-]. now left.
      * intros [[= <-]|(k & ? & _)]; [reflexivity | discriminate].
    + reflexivity.
    + intros this'. split; [discriminate|].
      intros (k & c0 & ? & _). discriminate.
    + discriminate.
Qed.

End Lifecycle.

(** [fetch] of [a/b@1.0.0] without dependencies over a connection that
    answers with a payload of one item. *)
Lemma fetch_single_no_dependencies_witness :
  sent (@fetch (Demo.collaborators (Demo.success "x"))
          (Demo.connected (Demo.success "x")) ["a/b@1.0.0"] true)
    = ["bit _fetch -n fi9zY29wZXMvbWFpbg== YS9iQDEuMC4w"]
  /\ settled (@fetch (Demo.collaborators (Demo.success "x"))
                (Demo.connected (Demo.success "x")) ["a/b@1.0.0"] true)
     = Resolved [Some "x"].
Proof.
  destruct (@fetch_single_no_dependencies (Demo.collaborators (Demo.success "x"))
              (Demo.connected (Demo.success "x")) "a/b@1.0.0" tt eq_refl eq_refl)
    as [Hsent Hsettled].
  split.
  - exact Hsent.
  - apply (Hsettled "x" "x" "x"); reflexivity.
Defined.

(** Against C2 as stated: the command line of that call has no occurrence
    of the base64 text of the flag [-n], so it does not have the operation
    followed by the encoded flag followed by the encoded id. *)
Lemma fetch_flag_is_not_encoded :
  ~ (exists cmd pre mid mid' post,
        sent (@fetch (Demo.collaborators (Demo.success "x"))
                (Demo.connected (Demo.success "x")) ["a/b@1.0.0"] true) = [cmd]
        /\ cmd = pre ++ "_fetch" ++ mid ++ Base64.encode "-n" ++ mid'
                     ++ Base64.encode "a/b@1.0.0" ++ post).
Proof.
  intros (cmd & pre & mid & mid' & post & Hsent & Hcmd).
  vm_compute in Hsent. injection Hsent as Hsent.
  assert (Hin : Js.includes cmd (Base64.encode "-n") = true).
  { apply includes_spec.
    exists (pre ++ "_fetch" ++ mid), (mid' ++ Base64.encode "a/b@1.0.0" ++ post).
    rewrite Hcmd. now rewrite !append_assoc. }
  rewrite <- Hsent in Hin. vm_compute in Hin. discriminate.
Qed.

(** [list] over a payload of four items, one of which deserializes to nil
    and one of which is empty; [fetch] over a payload of two items. *)
Lemma list_drops_nils_fetch_keeps_all_witness :
  (exists components,
      settled (@list_ (Demo.collaborators (Demo.success "null,x,,y"))
                 (Demo.connected (Demo.success "null,x,,y")))
        = Resolved components
      /\ Forall (fun x => x <> None) components
      /\ sublist components [None; Some (RawString "x"); None; Some (RawString "y")])
  /\ settled (@fetch (Demo.collaborators (Demo.success "x,y"))
                (Demo.connected (Demo.success "x,y")) ["a/b"; "c/d"] false)
     = Resolved [Some "x"; Some "y"].
Proof.
  split.
  - destruct (proj1 (@list_drops_nils_fetch_keeps_all
                       (Demo.collaborators (Demo.success "null,x,,y"))
                       (Demo.connected (Demo.success "null,x,,y")))
                    "null,x,,y"
                    [None; Some (RawString "x"); None; Some (RawString "y")]
                    eq_refl)
      as (components & Hlist & Hall & Hsub & _).
    + repeat constructor.
    + now exists components.
  - apply (proj2 (@list_drops_nils_fetch_keeps_all
                    (Demo.collaborators (Demo.success "x,y"))
                    (Demo.connected (Demo.success "x,y")))
                 ["a/b"; "c/d"] false "x,y" [Some "x"; Some "y"] eq_refl).
    repeat constructor.
Defined.

(** Against C6 as stated: [fetch] over a payload whose first item
    deserializes to nil resolves with a sequence that has the nil in it. *)
Lemma fetch_surfaces_nil :
  exists bundles,
    settled (@fetch (Demo.collaborators (Demo.success "null,x"))
               (Demo.connected (Demo.success "null,x")) ["a/b"; "c/d"] false)
      = Resolved bundles
    /\ ~ Forall (fun b => b <> None) bundles.
Proof.
  exists [None; Some "x"]. split; [reflexivity|].
  intros Hall. inversion Hall as [|? ? Hhead _]. now apply Hhead.
Qed.

(** A client that was never connected: [close] and [exec]. *)
Lemma close_keeps_connection_witness :
  @close (Demo.collaborators (Demo.success "")) (Demo.fresh (Demo.success ""))
    = Throw TypeError
  /\ settled (@exec (Demo.collaborators (Demo.success ""))
                (Demo.fresh (Demo.success "")) "_list" []) = Rejected TypeError
  /\ @close (Demo.collaborators (Demo.success "")) (Demo.connected (Demo.success ""))
     = Ok (Demo.connected (Demo.success "")).
Proof.
  destruct (@close_keeps_connection (Demo.collaborators (Demo.success ""))
              (Demo.fresh (Demo.success ""))) as (Hfresh & _).
  destruct (Hfresh eq_refl) as (Hclose & Hexec).
  refine (conj Hclose (conj (proj1 (Hexec "_list" [])) _)).
  destruct (@close_keeps_connection (Demo.collaborators (Demo.success ""))
              (Demo.connected (Demo.success ""))) as (_ & Hconn & _).
  exact (Hconn tt eq_refl).
Defined.

(** Against C7 as stated: [close] on a client that was never connected
    raises. *)
Lemma close_never_opened_raises :
  @close (Demo.collaborators (Demo.success "")) (Demo.fresh (Demo.success ""))
    = Throw TypeError
  /\ ~ (exists this',
          @close (Demo.collaborators (Demo.success "")) (Demo.fresh (Demo.success ""))
          = Ok this').
Proof.
  split; [reflexivity|]. intros [this' Hclose]. discriminate.
Qed.

(** [connect] without a key path, with a key that is refused, and with a
    key that is accepted. *)
Lemma connect_settles_witness :
  settled (@connect (Demo.collaborators (Demo.success "")) unit
             (Demo.fresh (Demo.success "")) tt None) = Rejected (Foreign "ENOENT")
  /\ settled (@connect (Demo.collaborators (Demo.success "")) unit
                (Demo.fresh (Demo.success "")) tt (Some ""))
     = Rejected (Foreign "EAUTH")
  /\ settled (@connect (Demo.collaborators (Demo.success "")) unit
                (Demo.fresh (Demo.success "")) tt (Some "key"))
     = Resolved (Demo.connected (Demo.success "")).
Proof.
  refine (conj _ (conj _ _)).
  - destruct (@connect_settles (Demo.collaborators (Demo.success "")) unit
                (Demo.fresh (Demo.success "")) tt None) as (_ & Hrej & _).
    apply Hrej. now left.
  - destruct (@connect_settles (Demo.collaborators (Demo.success "")) unit
                (Demo.fresh (Demo.success "")) tt (Some "")) as (_ & Hrej & _).
    apply Hrej. right. now exists "".
  - destruct (@connect_settles (Demo.collaborators (Demo.success "")) unit
                (Demo.fresh (Demo.success "")) tt (Some "key")) as (_ & _ & _ & Hres & _).
    apply Hres. now exists "key", tt.
Defined.

(** Against C9 as stated: with a connection whose channel never comes up
    (every command is answered with an error and no third argument),
    [connect] still resolves, and every command on the client it resolves
    with fails as a network error. *)
Lemma connect_resolves_without_channel :
  exists this',
    settled (@connect (Demo.collaborators Demo.no_channel) unit
               (Demo.fresh Demo.no_channel) tt (Some "key")) = Resolved this'
    /\ forall op args,
         settled (@exec (Demo.collaborators Demo.no_channel) this' op args)
         = Rejected UnexpectedNetworkError.
Proof.
  exists (Demo.connected Demo.no_channel). split; reflexivity.
Qed.


(** ** Further properties of the helpers *)

Section Helpers.

Lemma append_inv_head (a x y : string) : a ++ x = a ++ y -> x = y.
Proof. induction a as [|c a IH]; simpl; [auto | intros [= E]; auto]. Qed.

Lemma startsWith_slash (p : string) :
  Js.startsWith p "/" = true <-> exists r, p = String "/" r.
Proof.
  unfold Js.startsWith. rewrite prefix_spec. split; intros [r ->]; now exists r.
Qed.

Lemma absolutePath_injective (p q : string) :
  absolutePath p = absolutePath q -> p = q.
Proof.
  unfold absolutePath.
  destruct (Js.startsWith p "/") eqn:Hp, (Js.startsWith q "/") eqn:Hq; simpl; intros Heq.
  - exact Heq.
  - apply startsWith_slash in Hp as [r ->]. discriminate.
  - apply startsWith_slash in Hq as [r ->]. discriminate.
  - now injection Heq.
Qed.

(** [absolutePath] always gives a path that starts with [/] or with [~/],
    so never the empty path; it keeps a path exactly when the path starts
    with [/]; it is one-to-one; and it is not idempotent on the other
    paths: applied again to its own result for such a path [p] it gives
    [~/~/p]. *)
Theorem absolutePath_shape (p : string) :
  (Js.startsWith (absolutePath p) "/" = true
   \/ Js.startsWith (absolutePath p) "~/" = true)
  /\ absolutePath p <> ""
  /\ (absolutePath p = p <-> Js.startsWith p "/" = true)
  /\ (forall q, absolutePath p = absolutePath q -> p = q)
  /\ (Js.startsWith p "/" = false ->
      absolutePath (absolutePath p) = "~/~/" ++ p
      /\ absolutePath (absolutePath p) <> absolutePath p).
Proof.
  assert (Hrel : forall q, Js.startsWith q "/" = false -> absolutePath q = "~/" ++ q).
  { intros q Hq. unfold absolutePath. now rewrite Hq. }
  assert (Habs : forall q, Js.startsWith q "/" = true -> absolutePath q = q).
  { intros q Hq. unfold absolutePath. now rewrite Hq. }
  split; [|split; [|split; [|split]]].
  - destruct (Js.startsWith p "/") eqn:Hp.
    + left. now rewrite (Habs _ Hp).
    + right. rewrite (Hrel _ Hp). unfold Js.startsWith. apply prefix_spec. now exists p.
  - destruct (Js.startsWith p "/") eqn:Hp.
    + rewrite (Habs _ Hp). apply startsWith_slash in Hp as [r ->]. discriminate.
    + rewrite (Hrel _ Hp). discriminate.
  - split.
    + intros Heq. destruct (Js.startsWith p "/") eqn:Hp; [reflexivity|].
      rewrite (Hrel _ Hp) in Heq. apply (f_equal String.length) in Heq.
      simpl in Heq. lia.
    + apply Habs.
  - intros q. apply absolutePath_injective.
  - intros Hp. rewrite (Hrel _ Hp). split.
    + now rewrite (Hrel ("~/" ++ p)).
    + rewrite (Hrel ("~/" ++ p)) by reflexivity.
      intros Heq. apply (f_equal String.length) in Heq. simpl in Heq. lia.
Qed.

Lemma without_char_clean (s : string) :
  Js.without_char Js.LF (clean s) = Js.without_char Js.LF s.
Proof.
  induction s as [|c s IH]; [reflexivity|].
  rewrite clean_cons. simpl. destruct (Ascii.eqb c Js.LF) eqn:Hc; [reflexivity|].
  simpl. now rewrite Hc, IH.
Qed.

Lemma count_char_has_char_false (c : ascii) (s : string) :
  Js.count_char c s = 0 <-> Js.has_char c s = false.
Proof.
  pose proof (has_char_count c s) as [Hpos Hhas]. split.
  - intros E. destruct (Js.has_char c s); [|reflexivity].
    specialize (Hpos eq_refl). lia.
  - intros E. destruct (Js.count_char c s); [reflexivity|].
    rewrite Hhas in E by lia. discriminate.
Qed.

(** [clean] removes nothing but line feeds: the other characters of the
    output, carriage returns included, are all kept, in their order. It
    removes one character at most, and cleaning twice differs from
    cleaning once exactly when the output has two line feeds or more. *)
Theorem clean_keeps_other_characters (s : string) :
  Js.without_char Js.LF (clean s) = Js.without_char Js.LF s
  /\ Js.count_char Js.LF (clean s) = Js.count_char Js.LF s - 1
  /\ String.length s - 1 <= String.length (clean s) <= String.length s
  /\ (clean (clean s) = clean s <-> Js.count_char Js.LF s <= 1).
Proof.
  split; [apply without_char_clean|].
  destruct (Js.has_char Js.LF s) eqn:Hs.
  - pose proof (clean_length s Hs) as Hlen. pose proof (clean_count s Hs) as Hcount.
    split; [lia|]. split; [lia|]. split.
    + intros Hidem. destruct (Js.has_char Js.LF (clean s)) eqn:Hs'.
      * apply clean_length in Hs'. rewrite Hidem in Hs'. lia.
      * apply count_char_has_char_false in Hs'. lia.
    + intros Hle. apply clean_no_newline. apply count_char_has_char_false. lia.
  - pose proof (proj2 (count_char_has_char_false Js.LF s) Hs) as Hzero.
    rewrite (clean_no_newline s Hs). split; [lia|]. split; [lia|].
    split; [lia | intros _; now rewrite (clean_no_newline s Hs)].
Qed.

End Helpers.

(** ** Further properties of [exec] *)

Section ExecSettles.
Context `{Collaborators}.

Lemma truthy_not_zero (v : Js.value) :
  Js.truthy v && negb (Js.strict_eq v (Js.VNum 0)) = Js.truthy v.
Proof.
  destruct v as [| |b|n|s]; simpl; try reflexivity; try now rewrite andb_true_r.
  now destruct (n =? 0)%Z.
Qed.

Lemma exec_callback_rejected (err : option err_obj) (res : string)
      (o : option exit_obj) (e : error) :
  exec_callback err res o = Rejected e <->
  (o = None /\ e = UnexpectedNetworkError)
  \/ (exists err' o', err = Some err' /\ o = Some o'
                      /\ Js.truthy (exit_code o') = true
                      /\ e = errorHandler err' (Js.VStr res)).
Proof.
  unfold exec_callback. destruct o as [o|].
  - destruct err as [err|].
    + rewrite truthy_not_zero. destruct (Js.truthy (exit_code o)) eqn:Ht.
      * split.
        -- intros [= <-]. right. now exists err, o.
        -- intros [[? _]|(err' & o' & [= <-] & [= <-] & _ & ->)]; [discriminate | reflexivity].
      * split; [discriminate|].
        intros [[? _]|(err' & o' & _ & [= <-] & Ht' & _)]; [discriminate | congruence].
    + split; [discriminate|].
      intros [[? _]|(err' & o' & ? & _)]; discriminate.
  - split.
    + intros [= <-]. now left.
    + intros [[_ ->]|(err' & o' & _ & ? & _)]; [reflexivity | discriminate].
Qed.

Lemma exec_callback_resolved_iff (err : option err_obj) (res : string)
      (o : option exit_obj) (v : string) :
  exec_callback err res o = Resolved v <->
  exists o', o = Some o' /\ (err = None \/ Js.truthy (exit_code o') = false)
             /\ v = clean res.
Proof.
  unfold exec_callback. destruct o as [o|].
  - destruct err as [err|].
    + rewrite truthy_not_zero. destruct (Js.truthy (exit_code o)) eqn:Ht.
      * split; [discriminate|].
        intros (o' & [= <-] & [?|Ht'] & _); [discriminate | congruence].
      * split.
        -- intros [= <-]. exists o. auto.
        -- now intros (o' & _ & _ & ->).
    + split.
      * intros [= <-]. exists o. auto.
      * now intros (o' & _ & _ & ->).
  - split; [discriminate | intros (o' & ? & _); discriminate].
Qed.

(** What [exec] settles with once the connection has invoked the completion
    callback with [(err, res, o)]. Without the third argument it rejects
    with [UnexpectedNetworkError]; with an error object and a truthy exit
    code it rejects with the classifier's error (the further test that the
    code is not 0 changes nothing); in the other cases in which the
    callback is invoked it resolves with the cleaned output, so an error
    object that comes with a falsy exit code (0, undefined) is dropped, and
    so is a truthy exit code that comes without an error object. The
    promise is settled from inside the callback only: nothing is stated
    for a connection that never invokes it. *)
Theorem exec_settles_on_callback (this : SSH) (op : string) (args : list string)
        (c c' : Sequest) (err : option err_obj) (res : string) (o : option exit_obj) :
  connection this = Some c ->
  sequest_call c (command_line this op args) = (c', Callback err res o) ->
  (o = None -> settled (exec this op args) = Rejected UnexpectedNetworkError)
  /\ (forall err' o',
        err = Some err' -> o = Some o' -> Js.truthy (exit_code o') = true ->
        settled (exec this op args) = Rejected (errorHandler err' (Js.VStr res)))
  /\ (forall o',
        o = Some o' -> err = None \/ Js.truthy (exit_code o') = false ->
        settled (exec this op args) = Resolved (clean res))
  /\ (forall e,
        settled (exec this op args) = Rejected e <->
        (o = None /\ e = UnexpectedNetworkError)
        \/ (exists err' o', err = Some err' /\ o = Some o'
                            /\ Js.truthy (exit_code o') = true
                            /\ e = errorHandler err' (Js.VStr res)))
  /\ (forall v,
        settled (exec this op args) = Resolved v <->
        exists o', o = Some o' /\ (err = None \/ Js.truthy (exit_code o') = false)
                   /\ v = clean res).
Proof.
  intros Hc Hcall. rewrite (exec_connected _ _ _ _ _ _ Hc Hcall). cbn [settled].
  split; [|split; [|split; [|split]]].
  - intros ->. reflexivity.
  - intros err' o' -> -> Ht. apply exec_callback_rejected. right. now exists err', o'.
  - intros o' -> Hor. apply exec_callback_resolved_iff. now exists o'.
  - intros e. apply exec_callback_rejected.
  - intros v. apply exec_callback_resolved_iff.
Qed.

End ExecSettles.

(** ** Further properties of the operations *)

Section OperationsMore.
Context `{Collaborators}.

Lemma kept_refl (this : SSH) : kept this this.
Proof. unfold kept, same_endpoint. tauto. Qed.

Lemma kept_set_connection (this : SSH) (c : Sequest) : kept this (set_connection this c).
Proof.
  unfold kept, same_endpoint, is_connected. simpl. repeat split. intros _. now exists c.
Qed.

Lemma exec_kept (this : SSH) (op : string) (args : list string) :
  kept this (client (exec this op args)).
Proof.
  unfold exec. destruct (connection this) as [c|]; [|apply kept_refl].
  destruct (sequest_call c _) as [c' r]. apply kept_set_connection.
Qed.

(** No operation changes the endpoint of the client (path, user name,
    port, host), and none drops a connection the client holds: after
    [exec], [push], [describeScope], [list], [search], [show], [fetch], a
    [close] that returns and a [connect], whether they succeed or fail, a
    client that had a connection still has one. *)
Theorem operations_keep_endpoint (this : SSH) :
  (forall op args, kept this (client (exec this op args)))
  /\ (forall objects, kept this (client (push this objects)))
  /\ kept this (client (describeScope this))
  /\ kept this (client (list_ this))
  /\ (forall query reindex, kept this (client (search this query reindex)))
  /\ (forall id, kept this (client (show this id)))
  /\ (forall ids noDeps, kept this (client (fetch this ids noDeps)))
  /\ (forall this', close this = Ok this' -> kept this this')
  /\ (forall (U : Type) (sshUrl : U) key, kept this (client (connect this sshUrl key))).
Proof.
  repeat match goal with |- _ /\ _ => split end;
    try (intros; apply exec_kept).
  - intros this' Hclose. apply close_Ok_inv in Hclose as (c & c' & _ & _ & ->).
    apply kept_set_connection.
  - intros U sshUrl key. unfold connect.
    destruct (keyGetter key) as [k|e]; simpl; [|apply kept_refl].
    destruct (sequest_connect _ k); simpl; [apply kept_set_connection | apply kept_refl].
Qed.

Lemma fold_right_map_encode {A : Type} (f : A -> string) (l : list A) :
  List.fold_right (fun a acc => " " ++ toBase64 a ++ acc) "" (List.map f l)
  = List.fold_right (fun x acc => " " ++ toBase64 (f x) ++ acc) "" l.
Proof.
  induction l as [|x l IH]; cbn [List.map List.fold_right];
    [reflexivity | now rewrite IH].
Qed.

(** The command line of each operation other than [fetch], on a client
    with a connection: one line per call, with the operation name, the
    encoded working path, and the encoded arguments; [search] renders its
    flag as the text [true] or [false]. *)
Theorem operations_wire_format (this : SSH) (c : Sequest) :
  connection this = Some c ->
  let wp := toBase64 (absolutePath (path this)) in
  (forall objects,
      sent (push this objects)
      = ["bit _put " ++ wp ++ " " ++ toBase64 (ComponentObjects_toString objects)])
  /\ sent (describeScope this) = ["bit _scope " ++ wp]
  /\ sent (list_ this) = ["bit _list " ++ wp]
  /\ (forall query reindex,
        sent (search this query reindex)
        = ["bit _search " ++ wp ++ " " ++ toBase64 query ++ " "
             ++ toBase64 (if reindex then "true" else "false")])
  /\ (forall id,
        sent (show this id) = ["bit _show " ++ wp ++ " " ++ toBase64 (BitId_toString id)]).
Proof.
  intros Hc wp. subst wp.
  unfold push, describeScope, list_, search, show, run_then, run_catch. cbn [sent].
  repeat match goal with |- _ /\ _ => split end; intros;
    rewrite (exec_sent _ _ _ _ Hc), command_line_unfold; cbn [List.fold_right];
    rewrite ?append_nil_r; reflexivity.
Qed.

(** The command line of [fetch], on a client with a connection: the ids
    follow the working path in the order the caller gave them, each
    encoded on its own. Without the flag the operation name ends in a
    space, so the line has two spaces between [_fetch] and the working
    path; and an empty list of ids still sends the command. *)
Theorem fetch_wire_format (this : SSH) (c : Sequest) (ids : list BitId) (noDeps : bool) :
  connection this = Some c ->
  let wp := toBase64 (absolutePath (path this)) in
  sent (fetch this ids noDeps)
  = ["bit _fetch " ++ (if noDeps then "-n" else "") ++ " " ++ wp
       ++ List.fold_right
            (fun id acc => " " ++ toBase64 (BitId_toString id) ++ acc) "" ids]
  /\ (noDeps = false -> exists rest,
        sent (fetch this ids noDeps) = ["bit _fetch  " ++ wp ++ rest])
  /\ (ids = [] ->
      sent (fetch this ids noDeps)
      = ["bit _fetch " ++ (if noDeps then "-n" else "") ++ " " ++ wp]).
Proof.
  intros Hc wp. subst wp.
  assert (Hsent : sent (fetch this ids noDeps)
    = ["bit _fetch " ++ (if noDeps then "-n" else "") ++ " "
         ++ toBase64 (absolutePath (path this))
         ++ List.fold_right
              (fun id acc => " " ++ toBase64 (BitId_toString id) ++ acc) "" ids]).
  { unfold fetch, run_then. cbn [sent].
    rewrite (exec_sent _ _ _ _ Hc), command_line_unfold, fold_right_map_encode.
    now destruct noDeps. }
  split; [exact Hsent|]. split.
  - intros ->. rewrite Hsent. eexists. reflexivity.
  - intros ->. rewrite Hsent. simpl. now rewrite append_nil_r.
Qed.

(** On a client that has no connection every operation settles without
    handing anything to a connection and leaves the client as it is:
    [push], [list], [search], [show] and [fetch] reject with a [TypeError],
    [describeScope] rejects with [RemoteScopeNotFound]. *)
Theorem operations_without_connection (this : SSH) :
  connection this = None ->
  (forall objects,
      push this objects = {| client := this; sent := []; settled := Rejected TypeError |})
  /\ describeScope this
     = {| client := this; sent := []; settled := Rejected RemoteScopeNotFound |}
  /\ list_ this = {| client := this; sent := []; settled := Rejected TypeError |}
  /\ (forall query reindex,
        search this query reindex
        = {| client := this; sent := []; settled := Rejected TypeError |})
  /\ (forall id,
        show this id = {| client := this; sent := []; settled := Rejected TypeError |})
  /\ (forall ids noDeps,
        fetch this ids noDeps
        = {| client := this; sent := []; settled := Rejected TypeError |}).
Proof.
  intros Hc.
  unfold push, describeScope, list_, search, show, fetch, run_then, run_catch.
  repeat match goal with |- _ /\ _ => split end; intros;
    now rewrite (exec_no_connection _ _ _ Hc).
Qed.

(** A rejection of [exec] reaches the caller of [push], [list], [search],
    [show] and [fetch] as it is, so the classifier's kinds are what these
    operations fail with. *)
Theorem exec_rejection_propagates (this : SSH) (e : error) :
  (forall objects,
      settled (exec this "_put" [ComponentObjects_toString objects]) = Rejected e ->
      settled (push this objects) = Rejected e)
  /\ (settled (exec this "_list" []) = Rejected e ->
      settled (list_ this) = Rejected e)
  /\ (forall query reindex,
        settled (exec this "_search" [query; Js.bool_to_string reindex]) = Rejected e ->
        settled (search this query reindex) = Rejected e)
  /\ (forall id,
        settled (exec this "_show" [BitId_toString id]) = Rejected e ->
        settled (show this id) = Rejected e)
  /\ (forall (ids : list BitId) (noDeps : bool),
        settled (exec this ("_fetch " ++ (if noDeps then "-n" else ""))
                      (List.map BitId_toString ids)) = Rejected e ->
        settled (fetch this ids noDeps) = Rejected e).
Proof.
  unfold push, list_, search, show, run_then. cbn [settled].
  repeat match goal with |- _ /\ _ => split end; intros;
    try (change (settled (fetch this ids noDeps))
           with (then_ (settled (exec this ("_fetch " ++ (if noDeps then "-n" else ""))
                                      (List.map BitId_toString ids)))
                       (fun str => map_result ComponentObjects_fromString (unpack str))));
    match goal with Hexec : settled _ = Rejected _ |- _ => now rewrite Hexec end.
Qed.

End OperationsMore.

(** ** Payloads and failures *)

Section Payloads.
Context `{Collaborators}.

Lemma map_result_first_throw {A B : Type} (f : A -> result B)
      (pre post : list A) (x : A) (e : error) :
  Forall (fun a => exists b, f a = Ok b) pre ->
  f x = Throw e ->
  map_result f (pre ++ x :: post)%list = Throw e.
Proof.
  intros Hpre Hx. induction Hpre as [|a pre [b Hb] _ IH]; simpl.
  - now rewrite Hx.
  - now rewrite Hb, IH.
Qed.

Lemma clean_empty (res : string) :
  clean res = "" <-> res = "" \/ res = String Js.LF "".
Proof.
  destruct res as [|c r]; [now split; auto|].
  rewrite clean_cons. destruct (Ascii.eqb c Js.LF) eqn:Hc.
  - apply Ascii.eqb_eq in Hc as ->. split.
    + intros ->. now right.
    + intros [?|[= ->]]; [discriminate | reflexivity].
  - split; [discriminate|]. intros [?|[= -> _]]; [discriminate|].
    now rewrite Ascii.eqb_refl in Hc.
Qed.

(** A listing whose unpacked items are all empty resolves with no
    component at all, whatever the deserializer would make of an empty
    text: empty items never reach it. *)
Theorem list_of_empty_items (this : SSH) (str : string) :
  settled (exec this "_list" []) = Resolved str ->
  Forall (fun c => c = "") (unpack str) ->
  settled (list_ this) = Resolved [].
Proof.
  intros Hexec Hempty. unfold list_, run_then. cbn [settled]. rewrite Hexec. simpl.
  induction Hempty as [|c items -> _ IH]; [reflexivity|].
  simpl. destruct (map_result _ items) as [mapped|e]; simpl in *; [|discriminate].
  now injection IH as ->.
Qed.

(** [list] and [fetch] have no partial result: when the deserializer
    throws on an item after accepting the ones before it, the whole call
    rejects with that error, whatever follows. [list] only deserializes
    the non-empty items; [fetch] hands the deserializer every item, an
    empty one included. *)
Theorem list_fetch_all_or_nothing (this : SSH) (str : string)
        (pre post : list string) (item : string) (e : error) :
  unpack str = (pre ++ item :: post)%list ->
  (settled (exec this "_list" []) = Resolved str ->
   Forall (fun c => c = "" \/ exists d, ConsumerComponent_fromString (RawString c) = Ok d)
          pre ->
   item <> "" ->
   ConsumerComponent_fromString (RawString item) = Throw e ->
   settled (list_ this) = Rejected e)
  /\ (forall (ids : list BitId) (noDeps : bool),
        settled (exec this ("_fetch " ++ (if noDeps then "-n" else ""))
                      (List.map BitId_toString ids)) = Resolved str ->
        Forall (fun c => exists d, ComponentObjects_fromString c = Ok d) pre ->
        ComponentObjects_fromString item = Throw e ->
        settled (fetch this ids noDeps) = Rejected e).
Proof.
  intros Hitems. split.
  - intros Hexec Hpre Hne Hitem. unfold list_, run_then. cbn [settled].
    rewrite Hexec. simpl. rewrite Hitems.
    rewrite (map_result_first_throw _ pre post item e); [reflexivity| |].
    + eapply Forall_impl; [exact Hpre|]. intros c [->|[d Hd]]; simpl; eauto.
      unfold Js.nonempty. destruct (c =? "")%string; eauto.
    + unfold Js.nonempty. destruct (String.eqb_spec item ""); [contradiction|].
      exact Hitem.
  - intros ids noDeps Hexec Hpre Hitem.
    change (settled (fetch this ids noDeps))
      with (then_ (settled (exec this ("_fetch " ++ (if noDeps then "-n" else ""))
                                 (List.map BitId_toString ids)))
                  (fun str => map_result ComponentObjects_fromString (unpack str))).
    rewrite Hexec. simpl. rewrite Hitems.
    now rewrite (map_result_first_throw _ pre post item e).
Qed.

(** [search] rejects exactly when [exec] rejects, with the same error, or
    when [JSON.parse] throws on the text [exec] resolved with, with the
    error it throws: unlike [describeScope] it neither decodes base64 nor
    replaces the error. It resolves exactly with what [JSON.parse] returns
    on that text. *)
Theorem search_settles (this : SSH) (query : string) (reindex : bool) :
  (forall e,
      settled (search this query reindex) = Rejected e <->
      settled (exec this "_search" [query; if reindex then "true" else "false"])
        = Rejected e
      \/ exists str,
           settled (exec this "_search" [query; if reindex then "true" else "false"])
             = Resolved str
           /\ JSON_parse str = Throw e)
  /\ (forall found,
        settled (search this query reindex) = Resolved found <->
        exists str,
          settled (exec this "_search" [query; if reindex then "true" else "false"])
            = Resolved str
          /\ JSON_parse str = Ok found).
Proof.
  unfold search, run_then. cbn [settled].
  change (Js.bool_to_string reindex) with (if reindex then "true" else "false").
  destruct (settled (exec this "_search" _)) as [str|e0]; simpl.
  - destruct (JSON_parse str) as [found0|e1] eqn:Hparse; split.
    + intros e. split; [discriminate|].
      intros [?|(str' & [= <-] & Hp)]; [discriminate | congruence].
    + intros found. split.
      * intros [= <-]. now exists str.
      * intros (str' & [= <-] & Hp). congruence.
    + intros e. split.
      * intros [= <-]. right. now exists str.
      * intros [?|(str' & [= <-] & Hp)]; [discriminate | congruence].
    + intros found. split; [discriminate|].
      intros (str' & [= <-] & Hp). congruence.
  - split.
    + intros e. split.
      * intros [= <-]. now left.
      * intros [[= <-]|(str' & ? & _)]; [reflexivity | discriminate].
    + intros found. split; [discriminate | intros (str' & ? & _); discriminate].
Qed.

(** What [show] makes of the raw output of a command that succeeds: an
    output that is empty or a single line feed means no component; any
    other output, once cleaned, is unpacked and deserialized. *)
Theorem show_raw_output (this : SSH) (id : BitId) (c c' : Sequest)
        (err : option err_obj) (res : string) (o : exit_obj) :
  connection this = Some c ->
  sequest_call c (command_line this "_show" [BitId_toString id])
    = (c', Callback err res (Some o)) ->
  err = None \/ Js.truthy (exit_code o) = false ->
  (res = "" \/ res = String Js.LF "" -> settled (show this id) = Resolved None)
  /\ (res <> "" -> res <> String Js.LF "" ->
      settled (show this id)
      = match ConsumerComponent_fromString (RawArray (unpack (clean res))) with
        | Ok component => Resolved component
        | Throw e => Rejected e
        end).
Proof.
  intros Hc Hcall Hok.
  assert (Hexec : settled (exec this "_show" [BitId_toString id]) = Resolved (clean res)).
  { rewrite (exec_connected _ _ _ _ _ _ Hc Hcall). cbn [settled].
    apply exec_callback_resolved_iff. now exists o. }
  unfold show, run_then. cbn [settled]. rewrite Hexec. simpl. split.
  - intros Hres. apply clean_empty in Hres. now rewrite Hres.
  - intros Hne Hnl. unfold Js.nonempty.
    destruct (String.eqb_spec (clean res) "") as [Hclean|_]; [|reflexivity].
    apply clean_empty in Hclean as [?|?]; contradiction.
Qed.

(** A command that fails with status 127 and reports no id makes the
    operation fail with [ComponentNotFound] carrying the raw output of the
    command, line feeds included: not the id that [show] was asked for nor
    the ids that [fetch] was asked for. *)
Theorem not_found_carries_output (this : SSH) (c : Sequest)
        (err : err_obj) (res : string) (o : exit_obj) :
  connection this = Some c ->
  (forall cmd, exists c', sequest_call c cmd = (c', Callback (Some err) res (Some o))) ->
  Js.truthy (exit_code o) = true ->
  err_code err = Js.VNum 127 ->
  Js.truthy (err_id err) = false ->
  (forall id, settled (show this id) = Rejected (ComponentNotFound (Js.VStr res)))
  /\ (forall ids noDeps,
        settled (fetch this ids noDeps) = Rejected (ComponentNotFound (Js.VStr res))).
Proof.
  intros Hc Hcall Ht Hcode Hid.
  assert (Hexec : forall op args,
             settled (exec this op args) = Rejected (ComponentNotFound (Js.VStr res))).
  { intros op args. destruct (Hcall (command_line this op args)) as [c' Hc'].
    rewrite (exec_connected _ _ _ _ _ _ Hc Hc'). cbn [settled].
    apply exec_callback_rejected. right. exists err, o.
    repeat split; [assumption|]. unfold errorHandler, Js.or.
    now rewrite Hcode, Hid. }
  split; intros; unfold show, fetch, run_then; cbn [settled]; now rewrite Hexec.
Qed.


End Payloads.

(** ** The base64 collaborator used in the examples *)

Section Base64Facts.

Local Open Scope N_scope.

Local Ltac div_lia := zify; Z.to_euclidean_division_equations; lia.

Lemma list_ind3 {A : Type} (P : list A -> Prop) :
  P [] -> (forall a, P [a]) -> (forall a b, P [a; b]) ->
  (forall a b c r, P r -> P (a :: b :: c :: r)) ->
  forall l, P l.
Proof.
  intros H0 H1 H2 H3.
  refine (fix F (l : list A) : P l :=
            match l with
            | [] => H0
            | [a] => H1 a
            | [a; b] => H2 a b
            | a :: b :: c :: r => H3 a b c r (F r)
            end).
Qed.

Lemma digit_not_space (n : N) : Base64.digit n <> " "%char.
Proof.
  unfold Base64.digit. generalize (N.to_nat n) as k. intros k.
  do 64 (destruct k as [|k]; [vm_compute; discriminate|]).
  vm_compute. discriminate.
Qed.

Lemma digit_index (n : N) :
  n < 64 ->
  Base64.index_of (Base64.digit n) Base64.alphabet 0 = Some n
  /\ Ascii.eqb (Base64.digit n) Base64.pad = false.
Proof.
  intros Hn. rewrite <- (N2Nat.id n).
  assert (Hk : (N.to_nat n < 64)%nat) by lia.
  revert Hk. generalize (N.to_nat n) as k. intros k Hk.
  do 64 (destruct k as [|k]; [vm_compute; split; reflexivity|]).
  lia.
Qed.

Lemma sextets_digit (n : N) (rest : string) :
  n < 64 ->
  Base64.sextets (String (Base64.digit n) rest) = n :: Base64.sextets rest.
Proof.
  intros Hn. destruct (digit_index n Hn) as [Hidx Hpad].
  cbn [Base64.sextets]. now rewrite Hpad, Hidx.
Qed.

Lemma sextets_pad (rest : string) : Base64.sextets (String Base64.pad rest) = [].
Proof. reflexivity. Qed.

Lemma encode_bytes_no_space (l : list N) :
  Js.has_char " " (Base64.encode_bytes l) = false.
Proof.
  assert (Hd : forall n, Ascii.eqb (Base64.digit n) " " = false).
  { intros n. apply Ascii.eqb_neq, digit_not_space. }
  induction l as [|a|a b|a b c r IH] using list_ind3;
    cbn [Base64.encode_bytes Js.has_char]; rewrite ?Hd; try reflexivity.
  exact IH.
Qed.

Lemma decode_encode_bytes (l : list N) :
  Forall (fun a => a < 256) l ->
  Base64.decode_sextets (Base64.sextets (Base64.encode_bytes l)) = l.
Proof.
  induction l as [|a|a b|a b c r IH] using list_ind3; intros Hl.
  - reflexivity.
  - inversion Hl as [|? ? Ha _]; subst. cbn [Base64.encode_bytes].
    rewrite !sextets_digit, sextets_pad by div_lia.
    cbn [Base64.decode_sextets]. f_equal. div_lia.
  - inversion Hl as [|? ? Ha Hl']; subst. inversion Hl' as [|? ? Hb _]; subst.
    cbn [Base64.encode_bytes].
    rewrite !sextets_digit, sextets_pad by div_lia.
    cbn [Base64.decode_sextets].
    assert (Hn : (a * 256 + b) * 4 / 4096 * 4096
                 + (a * 256 + b) * 4 / 64 mod 64 * 64
                 + ((a * 256 + b) * 4) mod 64 = (a * 256 + b) * 4) by div_lia.
    rewrite Hn. f_equal; [|f_equal]; div_lia.
  - inversion Hl as [|? ? Ha Hl']; subst. inversion Hl' as [|? ? Hb Hl'']; subst.
    inversion Hl'' as [|? ? Hc Hr]; subst.
    cbn [Base64.encode_bytes].
    rewrite !sextets_digit by div_lia.
    cbn [Base64.decode_sextets]. rewrite (IH Hr).
    assert (Hn : (a * 65536 + b * 256 + c) / 262144 * 262144
                 + (a * 65536 + b * 256 + c) / 4096 mod 64 * 4096
                 + (a * 65536 + b * 256 + c) / 64 mod 64 * 64
                 + (a * 65536 + b * 256 + c) mod 64 = a * 65536 + b * 256 + c)
      by div_lia.
    rewrite Hn. f_equal; [|f_equal; [|f_equal]]; div_lia.
Qed.

Lemma decode_encode (s : string) : Base64.decode (Base64.encode s) = s.
Proof.
  unfold Base64.decode, Base64.encode. rewrite decode_encode_bytes.
  - rewrite List.map_map.
    rewrite (List.map_ext _ (fun a => a)) by (intros a; apply ascii_N_embedding).
    rewrite List.map_id. apply string_of_list_ascii_of_string.
  - apply List.Forall_forall. intros n Hn. apply List.in_map_iff in Hn as (a & <- & _).
    apply N_ascii_bounded.
Qed.

Lemma encode_injective (a b : string) : Base64.encode a = Base64.encode b -> a = b.
Proof.
  intros Heq. rewrite <- (decode_encode a), <- (decode_encode b). now rewrite Heq.
Qed.

Lemma encode_no_space (s : string) : Js.has_char " " (Base64.encode s) = false.
Proof. apply encode_bytes_no_space. Qed.

End Base64Facts.

(** ** The framing of the command line *)

Section Framing.
Context `{Collaborators}.

Lemma token_split (a b r r' : string) :
  Js.has_char " " a = false -> Js.has_char " " b = false ->
  token_end r -> token_end r' ->
  a ++ r = b ++ r' -> a = b /\ r = r'.
Proof.
  revert b. induction a as [|x a IH]; intros b Ha Hb Hr Hr' Heq.
  - destruct b as [|y b]; [now split|]. simpl in Heq, Hb. exfalso.
    destruct Hr as [->|[t ->]]; [discriminate|].
    injection Heq as <- _. now rewrite Ascii.eqb_refl in Hb.
  - destruct b as [|y b].
    + simpl in Heq, Ha. exfalso.
      destruct Hr' as [->|[t ->]]; [discriminate|].
      injection Heq as -> _. now rewrite Ascii.eqb_refl in Ha.
    + simpl in Heq, Ha, Hb. injection Heq as -> Heq.
      apply orb_false_iff in Ha as [_ Ha]. apply orb_false_iff in Hb as [_ Hb].
      destruct (IH b Ha Hb Hr Hr' Heq) as [-> ->]. now split.
Qed.

Lemma tokens_end (l : list string) :
  token_end (List.fold_right (fun y acc => " " ++ y ++ acc) "" l).
Proof. destruct l as [|y l]; [now left | right; simpl; eauto]. Qed.

Lemma tokens_injective (l l' : list string) :
  Forall (fun y => Js.has_char " " y = false) l ->
  Forall (fun y => Js.has_char " " y = false) l' ->
  List.fold_right (fun y acc => " " ++ y ++ acc) "" l
  = List.fold_right (fun y acc => " " ++ y ++ acc) "" l' ->
  l = l'.
Proof.
  intros Hl. revert l'. induction Hl as [|y l Hy Hl IH]; intros l' Hl' Heq.
  - destruct l' as [|y' l']; [reflexivity | discriminate].
  - destruct Hl' as [|y' l' Hy' Hl']; [discriminate|].
    cbn [List.fold_right] in Heq. simpl in Heq. injection Heq as Heq.
    destruct (token_split _ _ _ _ Hy Hy' (tokens_end l) (tokens_end l') Heq) as [-> Hrest].
    f_equal. now apply IH.
Qed.

Lemma map_injective {A B : Type} (f : A -> B) (l l' : list A) :
  (forall a b, f a = f b -> a = b) -> List.map f l = List.map f l' -> l = l'.
Proof.
  intros Hf. revert l'. induction l as [|a l IH]; intros [|b l'] Heq;
    try discriminate; [reflexivity|].
  simpl in Heq. injection Heq as Hab Heq. f_equal; auto.
Qed.

(** The command line frames its arguments without ambiguity: when the
    encoder is one-to-one and its output has no space, as base64 is, two
    calls of [exec] for the same operation that hand out the same command
    line have the same working path and the same arguments, in number and
    in order. *)
Theorem command_line_injective (this this' : SSH) (op : string)
        (args args' : list string) :
  (forall a, Js.has_char " " (toBase64 a) = false) ->
  (forall a b, toBase64 a = toBase64 b -> a = b) ->
  command_line this op args = command_line this' op args' ->
  path this = path this' /\ args = args'.
Proof.
  intros Hspace Hinj Heq. unfold command_line, buildCmd in Heq.
  rewrite !str_or_empty in Heq.
  apply (append_inv_head "bit ") in Heq. apply append_inv_head in Heq.
  apply (append_inv_head " ") in Heq.
  cbn [List.map] in Heq. rewrite !join_cons in Heq.
  apply token_split in Heq as [Hpath Hargs]; auto using tokens_end.
  split.
  - apply Hinj in Hpath. now apply absolutePath_injective.
  - apply tokens_injective in Hargs.
    + now apply map_injective in Hargs.
    + apply List.Forall_forall. intros y Hy. apply List.in_map_iff in Hy as (a & <- & _).
      apply Hspace.
    + apply List.Forall_forall. intros y Hy. apply List.in_map_iff in Hy as (a & <- & _).
      apply Hspace.
Qed.

End Framing.

(** With base64 as the encoder: a client without a connection and one with
    a connection, on the same path, and the same [_show] command line. *)
Lemma command_line_injective_witness :
  @path (Demo.collaborators (Demo.success "")) (Demo.fresh (Demo.success ""))
  = @path (Demo.collaborators (Demo.success "")) (Demo.connected (Demo.success ""))
  /\ ["a/b"] = ["a/b"].
Proof.
  exact (@command_line_injective (Demo.collaborators (Demo.success ""))
           (Demo.fresh (Demo.success "")) (Demo.connected (Demo.success ""))
           "_show" ["a/b"] ["a/b"] encode_no_space encode_injective eq_refl).
Defined.

(** ** Examples for the further properties *)

(** An error object with status 127 that comes with an undefined exit code
    is dropped: [exec] resolves with the output. *)
Lemma exec_settles_on_callback_witness :
  settled (@exec (Demo.collaborators
                    (Callback (Some {| err_code := Js.VNum 127; err_id := Js.VUndefined |})
                              "out" (Some {| exit_code := Js.VUndefined |})))
             (Demo.connected _) "_list" [])
  = Resolved "out".
Proof.
  destruct (@exec_settles_on_callback (Demo.collaborators _) (Demo.connected _)
              "_list" [] tt tt
              (Some {| err_code := Js.VNum 127; err_id := Js.VUndefined |}) "out"
              (Some {| exit_code := Js.VUndefined |}) eq_refl eq_refl)
    as (_ & _ & Hresolves & _).
  apply (Hresolves {| exit_code := Js.VUndefined |} eq_refl). now right.
Defined.

(** The command lines of [push] and [search] on the path [scopes/main]. *)
Lemma operations_wire_format_witness :
  sent (@push (Demo.collaborators (Demo.success ""))
          (Demo.connected (Demo.success "")) "objects")
  = ["bit _put " ++ Base64.encode "~/scopes/main" ++ " " ++ Base64.encode "objects"]
  /\ sent (@search (Demo.collaborators (Demo.success ""))
             (Demo.connected (Demo.success "")) "is-string" true)
     = ["bit _search " ++ Base64.encode "~/scopes/main" ++ " "
          ++ Base64.encode "is-string" ++ " " ++ Base64.encode "true"].
Proof.
  destruct (@operations_wire_format (Demo.collaborators (Demo.success ""))
              (Demo.connected (Demo.success "")) tt eq_refl)
    as (Hpush & _ & _ & Hsearch & _).
  split; [exact (Hpush "objects") | exact (Hsearch "is-string" true)].
Defined.

(** [fetch] of two ids with their dependencies: two spaces after [_fetch],
    then the path and the ids in order. *)
Lemma fetch_wire_format_witness :
  sent (@fetch (Demo.collaborators (Demo.success ""))
          (Demo.connected (Demo.success "")) ["a/b"; "c/d"] false)
  = ["bit _fetch  " ++ Base64.encode "~/scopes/main" ++ " " ++ Base64.encode "a/b"
       ++ " " ++ Base64.encode "c/d"].
Proof.
  exact (proj1 (@fetch_wire_format (Demo.collaborators (Demo.success ""))
                  (Demo.connected (Demo.success "")) tt ["a/b"; "c/d"] false eq_refl)).
Defined.

(** [list] on a client that was never connected. *)
Lemma operations_without_connection_witness :
  @list_ (Demo.collaborators (Demo.success "")) (Demo.fresh (Demo.success ""))
  = {| client := Demo.fresh (Demo.success ""); sent := [];
       settled := Rejected TypeError |}.
Proof.
  destruct (@operations_without_connection (Demo.collaborators (Demo.success ""))
              (Demo.fresh (Demo.success "")) eq_refl) as (_ & _ & Hlist & _).
  exact Hlist.
Defined.

(** A remote failure with status 128 reaches the caller of [push]. *)
Lemma exec_rejection_propagates_witness :
  settled (@push (Demo.collaborators (Demo.failure 128 ""))
             (Demo.connected (Demo.failure 128 "")) "objects")
  = Rejected PermissionDenied.
Proof.
  destruct (@exec_rejection_propagates (Demo.collaborators (Demo.failure 128 ""))
              (Demo.connected (Demo.failure 128 "")) PermissionDenied) as (Hpush & _).
  apply Hpush. reflexivity.
Defined.

(** A listing of three empty items. *)
Lemma list_of_empty_items_witness :
  settled (@list_ (Demo.collaborators (Demo.success ",,"))
             (Demo.connected (Demo.success ",,")))
  = Resolved [].
Proof.
  apply (@list_of_empty_items (Demo.collaborators (Demo.success ",,"))
           (Demo.connected (Demo.success ",,")) ",," eq_refl).
  repeat constructor.
Defined.

(** A payload whose second item does not deserialize, in [list] and in
    [fetch]. *)
Lemma list_fetch_all_or_nothing_witness :
  settled (@list_ (Demo.collaborators (Demo.success "x,?,y"))
             (Demo.connected (Demo.success "x,?,y")))
  = Rejected (Foreign "SyntaxError")
  /\ settled (@fetch (Demo.collaborators (Demo.success "x,?,y"))
                (Demo.connected (Demo.success "x,?,y")) ["a/b"] false)
     = Rejected (Foreign "SyntaxError").
Proof.
  destruct (@list_fetch_all_or_nothing (Demo.collaborators (Demo.success "x,?,y"))
              (Demo.connected (Demo.success "x,?,y")) "x,?,y" ["x"] ["y"] "?"
              (Foreign "SyntaxError") eq_refl) as [Hlist Hfetch].
  split.
  - apply Hlist; try reflexivity; [|discriminate].
    constructor; [|constructor]. right. now exists (Some (RawString "x")).
  - apply Hfetch; try reflexivity.
    constructor; [|constructor]. now exists (Some "x").
Defined.

(** [search] on a text that does not parse. *)
Lemma search_settles_witness :
  settled (@search (Demo.collaborators (Demo.success "?"))
             (Demo.connected (Demo.success "?")) "is-string" false)
  = Rejected (Foreign "SyntaxError").
Proof.
  apply (proj1 (@search_settles (Demo.collaborators (Demo.success "?"))
                  (Demo.connected (Demo.success "?")) "is-string" false)).
  right. now exists "?".
Defined.

(** [show] on an output that is a single line feed. *)
Lemma show_raw_output_witness :
  settled (@show (Demo.collaborators (Demo.success (String Js.LF "")))
             (Demo.connected (Demo.success (String Js.LF ""))) "a/b")
  = Resolved None.
Proof.
  apply (@show_raw_output (Demo.collaborators (Demo.success (String Js.LF "")))
           (Demo.connected (Demo.success (String Js.LF ""))) "a/b" tt tt None
           (String Js.LF "") {| exit_code := Js.VNum 0 |} eq_refl eq_refl).
  - now left.
  - now right.
Defined.

(** [show] of [a/b] against a remote that fails with status 127 and prints
    a message. *)
Lemma not_found_carries_output_witness :
  settled (@show (Demo.collaborators (Demo.failure 127 "no such component"))
             (Demo.connected (Demo.failure 127 "no such component")) "a/b")
  = Rejected (ComponentNotFound (Js.VStr "no such component")).
Proof.
  apply (@not_found_carries_output
           (Demo.collaborators (Demo.failure 127 "no such component"))
           (Demo.connected (Demo.failure 127 "no such component")) tt
           {| err_code := Js.VNum 127; err_id := Js.VUndefined |}
           "no such component" {| exit_code := Js.VNum 127 |});
    try reflexivity.
  intros cmd. now exists tt.
Defined.

(** ** From the constructor to the connection *)

Section Constructor.
Context `{Collaborators}.

(** A client is constructed without a connection, so until [connect] has
    resolved [exec] rejects with a [TypeError]. [connect] on it sets up the
    connection for the user, host and port that the constructor was given,
    whatever [sshUrl] it is passed, and the client it resolves with has the
    path the constructor was given. *)
Theorem new_client_connects_to_props {U : Type} (props : SSHProps) (sshUrl : U)
        (key : option string) (privateKey : PrivateKey) :
  keyGetter key = Ok privateKey ->
  (forall op args, settled (exec (new_SSH props) op args) = Rejected TypeError)
  /\ (forall this',
        settled (connect (new_SSH props) sshUrl key) = Resolved this' <->
        exists c,
          sequest_connect
            (props_username props ++ "@" ++ props_host props ++ ":"
               ++ Number_toString (props_port props)) privateKey = Ok c
          /\ this' = {| connection := Some c;
                       path := props_path props;
                       username := props_username props;
                       port := props_port props;
                       host := props_host props |})
  /\ (forall e,
        settled (connect (new_SSH props) sshUrl key) = Rejected e <->
        sequest_connect
          (props_username props ++ "@" ++ props_host props ++ ":"
             ++ Number_toString (props_port props)) privateKey = Throw e).
Proof.
  intros Hkey. split.
  - intros op args. now rewrite exec_no_connection.
  - unfold connect, composeConnectionUrl, new_SSH, set_connection.
    cbn [connection path username port host]. rewrite Hkey, str_or_empty. simpl.
    destruct (sequest_connect _ privateKey) as [c|e0]; simpl; split.
    + intros this'. split.
      * intros [= <-]. now exists c.
      * intros (c0 & [= <-] & ->). reflexivity.
    + intros e. split; discriminate.
    + intros this'. split; [discriminate | intros (c0 & ? & _); discriminate].
    + intros e. split; intros [= <-]; reflexivity.
Qed.

End Constructor.

(** The client for [git@example.org:22] and a key that is accepted. *)
Lemma new_client_connects_to_props_witness :
  settled (@connect (Demo.collaborators (Demo.success "")) unit
             (@new_SSH (Demo.collaborators (Demo.success ""))
                (Demo.props (Demo.success ""))) tt (Some "key"))
  = Resolved (Demo.connected (Demo.success "")).
Proof.
  destruct (@new_client_connects_to_props (Demo.collaborators (Demo.success "")) unit
              (Demo.props (Demo.success "")) tt (Some "key") "key" eq_refl)
    as (_ & Hres & _).
  apply Hres. now exists tt.
Defined.

(** A path relative to the home directory, made absolute twice. *)
Lemma absolutePath_shape_witness :
  absolutePath (absolutePath "scopes/main") = "~/~/scopes/main"
  /\ absolutePath "/srv/scopes" = "/srv/scopes".
Proof.
  destruct (absolutePath_shape "scopes/main") as (_ & _ & _ & _ & Htwice).
  destruct (absolutePath_shape "/srv/scopes") as (_ & _ & Hkeep & _).
  split; [apply Htwice | apply Hkeep]; reflexivity.
Defined.

(** An output of three lines is not stable under [clean]. *)
Lemma clean_keeps_other_characters_witness :
  clean (clean Demo.three_lines) <> clean Demo.three_lines
  /\ Js.without_char Js.LF (clean Demo.three_lines) = "onetwothree".
Proof.
  destruct (clean_keeps_other_characters Demo.three_lines) as (Hkeep & _ & _ & Hidem).
  split.
  - intros Heq. apply Hidem in Heq. vm_compute in Heq. lia.
  - rewrite Hkeep. reflexivity.
Defined.

(** A failed [fetch] and a [close] leave the client on its endpoint and
    connected. *)
Lemma operations_keep_endpoint_witness :
  kept (Demo.connected (Demo.failure 128 ""))
       (client (@fetch (Demo.collaborators (Demo.failure 128 ""))
                  (Demo.connected (Demo.failure 128 "")) ["a/b"] false))
  /\ kept (Demo.connected (Demo.failure 128 "")) (Demo.connected (Demo.failure 128 "")).
Proof.
  destruct (@operations_keep_endpoint (Demo.collaborators (Demo.failure 128 ""))
              (Demo.connected (Demo.failure 128 "")))
    as (_ & _ & _ & _ & _ & _ & Hfetch & Hclose & _).
  split; [apply Hfetch | apply Hclose; reflexivity].
Defined.

